(** * of-tui: entry metadata, entry browser and background syntax check

    A shallow embedding of the core of the [of_tui] package:

    - [entry_meta.py]: [choose_validator], [_guess_validator],
      [boundary_condition_info], [get_entry_metadata], [refresh_entry_cache];
    - [browser.py]: the navigation loop of [entry_browser_screen]
      (descend / ascend / wrap-around moves), [_search_entries],
      [_entry_browser_search], [_entry_browser_inline_edit];
    - [app.py]: the worker of [_start_check_thread] and [_check_labels].

    Python [str] values are modelled as [string]; a character is read as a
    code point below 256.  Python dictionaries are [gmap]s, Python sets are
    [gset]s, lists are [list]s. *)

From Stdlib Require Import ZArith String Ascii List Bool Lia DecimalString.
From stdpp Require Import gmap strings list fin_maps sorting.
Import ListNotations.

Local Open Scope string_scope.
Local Open Scope Z_scope.

(* ===================================================================== *)
(** * Python string primitives *)
(* ===================================================================== *)

Module PyStr.

Definition code (c : ascii) : N := N_of_ascii c.

(** [str.isspace] on one code point below 256: TAB..CR, FS..US, SPACE,
    NEL (0x85) and NBSP (0xA0). *)
Definition is_space (c : ascii) : bool :=
  let n := code c in
  ((9 <=? n) && (n <=? 13) || (28 <=? n) && (n <=? 32)
   || (n =? 133) || (n =? 160))%N.

Definition is_digit (c : ascii) : bool :=
  let n := code c in ((48 <=? n) && (n <=? 57))%N.

(** [str.lower] on one code point below 256: A-Z, and the Latin-1 capitals
    0xC0..0xDE except the multiplication sign 0xD7. *)
Definition lower_char (c : ascii) : ascii :=
  let n := code c in
  if ((65 <=? n) && (n <=? 90)
      || (192 <=? n) && (n <=? 222) && negb (n =? 215))%N
  then ascii_of_N (n + 32) else c.

Fixpoint lower (s : string) : string :=
  match s with
  | EmptyString => EmptyString
  | String c t => String (lower_char c) (lower t)
  end.

(** [needle in hay] for two strings. *)
Fixpoint str_in (needle hay : string) : bool :=
  String.prefix needle hay
  || match hay with
     | EmptyString => false
     | String _ t => str_in needle t
     end.

(** [s.replace(old, new)] for one-character [old] and [new]. *)
Fixpoint replace_char (old new : ascii) (s : string) : string :=
  match s with
  | EmptyString => EmptyString
  | String c t =>
      String (if Ascii.eqb c old then new else c) (replace_char old new t)
  end.

Fixpoint lstrip (s : string) : string :=
  match s with
  | EmptyString => EmptyString
  | String c t => if is_space c then lstrip t else s
  end.

(** Drops the longest suffix whose characters all satisfy [p]. *)
Fixpoint rstrip_with (p : ascii -> bool) (s : string) : string :=
  match s with
  | EmptyString => EmptyString
  | String c t =>
      match rstrip_with p t with
      | EmptyString => if p c then EmptyString else String c EmptyString
      | t' => String c t'
      end
  end.

Definition rstrip (s : string) : string := rstrip_with is_space s.

(** [s.rstrip(";")] and the like: every trailing occurrence goes. *)
Definition rstrip_char (ch : ascii) (s : string) : string :=
  rstrip_with (fun c => Ascii.eqb c ch) s.

Definition strip (s : string) : string := rstrip (lstrip s).

(** [s.split()]: maximal runs of non-whitespace characters. *)
Fixpoint split_go (cur : string) (s : string) : list string :=
  match s with
  | EmptyString =>
      match cur with EmptyString => [] | _ => [cur] end
  | String c t =>
      if is_space c
      then match cur with
           | EmptyString => split_go EmptyString t
           | _ => cur :: split_go EmptyString t
           end
      else split_go (cur ++ String c EmptyString) t
  end.

Definition split (s : string) : list string := split_go EmptyString s.

(** [s.split(sep)] for a one-character separator: empty fields are kept. *)
Fixpoint split_on_go (sep : ascii) (cur : string) (s : string) : list string :=
  match s with
  | EmptyString => [cur]
  | String c t =>
      if Ascii.eqb c sep
      then cur :: split_on_go sep EmptyString t
      else split_on_go sep (cur ++ String c EmptyString) t
  end.

Definition split_on (sep : ascii) (s : string) : list string :=
  split_on_go sep EmptyString s.

(** [sep.join(parts)]. *)
Fixpoint join (sep : string) (parts : list string) : string :=
  match parts with
  | [] => EmptyString
  | [p] => p
  | p :: rest => p ++ sep ++ join sep rest
  end.

(** [str(n)] for a non-negative integer. *)
Definition of_nat (n : nat) : string :=
  NilEmpty.string_of_uint (Nat.to_uint n).

(** [l[i]] with Python's negative indices; [None] stands for [IndexError]. *)
Definition index {A} (l : list A) (i : Z) : option A :=
  let n := Z.of_nat (length l) in
  if (0 <=? i) && (i <? n) then l !! Z.to_nat i
  else if (- n <=? i) && (i <? 0) then l !! Z.to_nat (n + i)
  else None.

(** [l.index(x)]; [None] stands for [ValueError]. *)
Fixpoint find_index (x : string) (l : list string) : option nat :=
  match l with
  | [] => None
  | y :: t => if String.eqb y x then Some 0%nat
              else option_map S (find_index x t)
  end.

(** Every character of [s] satisfies [p]. *)
Fixpoint all_chars (p : ascii -> bool) (s : string) : bool :=
  match s with
  | EmptyString => true
  | String c t => p c && all_chars p t
  end.

(** [l[-1]] where the list is not empty, [None] where it is. *)
Definition last_tok (l : list string) : option string := last l.

End PyStr.

(* ===================================================================== *)
(** * The builtins [int(s)] and [float(s)] as acceptors *)
(* ===================================================================== *)

Module PyNum.
Import PyStr.

(** digitpart ::= digit (["_"] digit)*.  [prev_digit] tells whether the
    previous character was a digit (an underscore needs one before and one
    after it). *)
Fixpoint digitpart_go (prev_digit : bool) (s : string) : bool :=
  match s with
  | EmptyString => prev_digit
  | String c t =>
      if is_digit c then digitpart_go true t
      else if Ascii.eqb c "_" then prev_digit && digitpart_go false t
      else false
  end.

Definition digitpart (s : string) : bool := digitpart_go false s.

Fixpoint count_digits (s : string) : nat :=
  match s with
  | EmptyString => 0
  | String c t => (if is_digit c then 1 else 0) + count_digits t
  end.

Definition is_sign (c : ascii) : bool := Ascii.eqb c "+" || Ascii.eqb c "-".

Definition drop_sign (s : string) : string :=
  match s with
  | String c t => if is_sign c then t else s
  | EmptyString => s
  end.

(** CPython's default [sys.get_int_max_str_digits()]. *)
Definition int_max_str_digits : nat := 4300.

(** The white space [int] and [float] skip around a literal: C's
    [isspace] (TAB..CR and SPACE), and NEL (0x85) and NBSP (0xA0), which the
    conversion turns into spaces first.  The separators FS..US (0x1C..0x1F)
    are white space for [str.strip] and [str.split], but not here:
    [int("5\x1c")] raises [ValueError]. *)
Definition is_num_space (c : ascii) : bool :=
  let n := code c in
  ((9 <=? n) && (n <=? 13) || (n =? 32) || (n =? 133) || (n =? 160))%N.

Fixpoint skip_num_space (s : string) : string :=
  match s with
  | EmptyString => EmptyString
  | String c t => if is_num_space c then skip_num_space t else s
  end.

(** The literal between the white space skipped on both sides. *)
Definition num_strip (s : string) : string :=
  rstrip_with is_num_space (skip_num_space s).

(** [int(s)] returns (rather than raising [ValueError]). *)
Definition int_ok (s : string) : bool :=
  let body := drop_sign (num_strip s) in
  digitpart body && (count_digits body <=? int_max_str_digits)%nat.

(** Splits at the first character satisfying [p]: the part before it, and
    the rest from that character on, if there is one. *)
Fixpoint break_at (p : ascii -> bool) (s : string) : string * option string :=
  match s with
  | EmptyString => (EmptyString, None)
  | String c t =>
      if p c then (EmptyString, Some s)
      else let '(a, b) := break_at p t in (String c a, b)
  end.

Definition is_dot (c : ascii) : bool := Ascii.eqb c ".".
Definition is_exp (c : ascii) : bool := Ascii.eqb c "e" || Ascii.eqb c "E".

(** number ::= [digitpart] "." digitpart | digitpart ["."] *)
Definition number_ok (s : string) : bool :=
  match break_at is_dot s with
  | (ip, None) => digitpart ip
  | (ip, Some (String _ fp)) =>
      match ip, fp with
      | EmptyString, EmptyString => false
      | EmptyString, _ => digitpart fp
      | _, EmptyString => digitpart ip
      | _, _ => digitpart ip && digitpart fp
      end
  | (_, Some EmptyString) => false
  end.

(** floatnumber ::= number [("e" | "E") ["+" | "-"] digitpart] *)
Definition floatnumber_ok (s : string) : bool :=
  match break_at is_exp s with
  | (m, None) => number_ok m
  | (m, Some (String _ ex)) => number_ok m && digitpart (drop_sign ex)
  | (_, Some EmptyString) => false
  end.

Definition inf_or_nan (s : string) : bool :=
  let l := lower s in
  String.eqb l "inf" || String.eqb l "infinity" || String.eqb l "nan".

(** [float(s)] returns (rather than raising [ValueError]). *)
Definition float_ok (s : string) : bool :=
  let body := drop_sign (num_strip s) in
  inf_or_nan body || floatnumber_ok body.

End PyNum.

(* ===================================================================== *)
(** * validation.py: the validator library *)
(* ===================================================================== *)

Module Validation.
Import PyStr PyNum.

(** A validator is one of five module-level functions of [validation.py],
    or the closure [enum_validator] built by [get_entry_metadata] over the
    set [allowed_set].  The constructors stand for the function objects, so
    that Python's [validator is bool_flag] is a match on the constructor. *)
Inductive Validator : Type :=
| non_empty
| as_int
| as_float
| bool_flag
| vector_values
| enum_validator (allowed_set : gset string).

(** The text a validator looks at: [v.strip().rstrip(";").strip()]. *)
Definition normalize (v : string) : string :=
  strip (rstrip_char ";" (strip v)).

(** Modelled from the spec: [non_empty] of validation.py (the module itself
    is not available): "error iff trimmed input is empty". *)
Definition non_empty_ok (v : string) : bool :=
  negb (String.eqb (strip v) "").

(** Modelled from the spec: [as_int] of validation.py: "error unless the
    (semicolon-stripped, trimmed) text parses as a base-10 integer
    literal". *)
Definition as_int_ok (v : string) : bool := int_ok (normalize v).

(** Modelled from the spec: [as_float] of validation.py: "error unless it
    parses as a floating-point literal (accepts integer literals too)". *)
Definition as_float_ok (v : string) : bool := float_ok (normalize v).

(** Modelled from the spec: [bool_flag] of validation.py: "error unless
    value case-insensitively matches one of a fixed accepted set (e.g.
    on/off/true/false/yes/no/0/1)". *)
Definition bool_flag_ok (v : string) : bool :=
  existsb (String.eqb (lower (strip v)))
          ["on"; "off"; "true"; "false"; "yes"; "no"; "0"; "1"].

(** Modelled from the spec: [vector_values] of validation.py: "error unless
    the text, after stripping a single enclosing (...), splits on
    whitespace into exactly three tokens each individually valid floats;
    anything not shaped like ( a b c ) is rejected". *)
Definition vector_values_ok (v : string) : bool :=
  match strip v with
  | String "(" rest =>
      match String.rev rest with
      | String ")" inner_rev =>
          match split (String.rev inner_rev) with
          | [a; b; c] => float_ok a && float_ok b && float_ok c
          | _ => false
          end
      | _ => false
      end
  | _ => false
  end.

(** [sorted(allowed_set)]: strings in code-point order. *)
Definition sorted (allowed_set : gset string) : list string :=
  merge_sort String.le (elements allowed_set).

(** Runs a validator: [None] when the text is accepted, otherwise the
    reason.  The reason texts of the five validators of validation.py are
    not given by the spec; the ones here only name the validator.  The
    text of [enum_validator] is the source's. *)
Definition run (validator : Validator) (v : string) : option string :=
  match validator with
  | non_empty => if non_empty_ok v then None else Some "Value must not be empty."
  | as_int => if as_int_ok v then None else Some "Value must be an integer."
  | as_float => if as_float_ok v then None else Some "Value must be a number."
  | bool_flag => if bool_flag_ok v then None else Some "Value must be a boolean flag."
  | vector_values => if vector_values_ok v then None else Some "Value must be a vector ( a b c )."
  | enum_validator allowed_set =>
      let text := normalize v in
      if decide (text ∈ allowed_set) then None
      else Some ("Value must be one of: " ++ join ", " (sorted allowed_set) ++ ".")
  end.

End Validation.

(* ===================================================================== *)
(** * openfoam.py: the dictionary engine, as seen by the browser *)
(* ===================================================================== *)

(** The functions of [openfoam.py] that [entry_meta.py] calls on the file
    being browsed ([file_path] is fixed during one browser session, so it is
    not an argument here).  [read_entry] returns [None] where the Python
    function raises [OpenFOAMError].  An [Engine] is the state of the file at
    one moment: a write to the file yields another [Engine]. *)
Record Engine : Type := {
  read_entry : string -> option string;
  list_subkeys : string -> list string;
  get_entry_comments : string -> list string;
  get_entry_info : string -> list string;
  get_entry_enum_values : string -> list string
}.

(* ===================================================================== *)
(** * entry_meta.py *)
(* ===================================================================== *)

Module EntryMeta.
Import PyStr PyNum Validation.

(** The tuple stored in the cache:
    (value, type_label, subkeys, comments, info_lines). *)
Abbreviation CacheEntry :=
  (string * string * list string * list string * list string)%type.
Abbreviation Cache := (gmap string CacheEntry).
(** What [get_entry_metadata] returns: the tuple and the validator. *)
Abbreviation Metadata :=
  (string * string * list string * list string * list string * Validator)%type.

Definition meta_value (m : Metadata) : string :=
  let '(value, _, _, _, _, _) := m in value.
Definition meta_type_label (m : Metadata) : string :=
  let '(_, type_label, _, _, _, _) := m in type_label.
Definition meta_subkeys (m : Metadata) : list string :=
  let '(_, _, subkeys, _, _, _) := m in subkeys.
Definition meta_comments (m : Metadata) : list string :=
  let '(_, _, _, comments, _, _) := m in comments.
Definition meta_info_lines (m : Metadata) : list string :=
  let '(_, _, _, _, info_lines, _) := m in info_lines.
Definition meta_validator (m : Metadata) : Validator :=
  let '(_, _, _, _, _, validator) := m in validator.

Definition _guess_validator (key : string) : Validator :=
  let lower := lower key in
  if existsb (fun tok => str_in tok lower)
             ["on"; "off"; "switch"; "enable"; "disable"]
  then bool_flag
  else if existsb (fun tok => str_in tok lower)
                  ["iter"; "step"; "n"; "count"]
  then as_int
  else if existsb (fun tok => str_in tok lower)
                  ["tol"; "dt"; "time"; "coeff"; "alpha"; "beta"]
  then as_float
  else non_empty.

(** The scalar rule of [choose_validator]: the two [try] blocks on the last
    token. *)
Definition scalar_rule (last : string) : option (Validator * string) :=
  if int_ok last && negb (str_in "." last) && negb (str_in "e" (lower last))
  then Some (as_int, "integer")
  else if float_ok last then Some (as_float, "float")
  else None.

Definition key_rule (key : string) : Validator * string :=
  let validator := _guess_validator key in
  let label :=
    match validator with
    | bool_flag => "boolean-like"
    | as_int => "integer"
    | as_float => "float"
    | _ => "text"
    end in
  (validator, label).

Definition looks_like_vector (value : string) : bool :=
  str_in "(" value && str_in ")" value
  && match run vector_values value with None => true | Some _ => false end.

Definition choose_validator (key value : string) : Validator * string :=
  if looks_like_vector value then (vector_values, "vector")
  else
    let tokens := split (replace_char ";" " " value) in
    match last_tok tokens with
    | Some last =>
        match scalar_rule last with
        | Some r => r
        | None => key_rule key
        end
    | None => key_rule key
    end.

Definition _read_optional_entry (eng : Engine) (key : string) : option string :=
  match read_entry eng key with
  | Some v => Some (strip v)
  | None => None
  end.

(** Python truthiness of an [Optional[str]]. *)
Definition truthy (o : option string) : option string :=
  match o with
  | Some EmptyString => None
  | _ => o
  end.

Definition boundary_condition_info (eng : Engine) (full_key : string) : list string :=
  let parts := split_on "." full_key in
  match find_index "boundaryField" parts with
  | None => []
  | Some idx =>
      match parts !! (idx + 1)%nat with
      | None => []
      | Some patch =>
          let patch_key := join "." (take (idx + 2) parts) in
          let type_line :=
            match truthy (_read_optional_entry eng (patch_key ++ ".type")) with
            | Some bc_type => "BC " ++ patch ++ " type: " ++ bc_type
            | None => "BC " ++ patch ++ ": missing required entry 'type'"
            end in
          let value_line :=
            match truthy (_read_optional_entry eng (patch_key ++ ".value")) with
            | Some bc_value => "BC " ++ patch ++ " value: " ++ bc_value
            | None => "BC " ++ patch ++ ": value entry not found"
            end in
          [type_line; value_line]
      end
  end.

(** The part shared by the miss path of [get_entry_metadata] and by
    [refresh_entry_cache]: info lines of the engine extended with the
    boundary-condition lines. *)
Definition info_with_bc (eng : Engine) (full_key : string) : list string :=
  (get_entry_info eng full_key ++ boundary_condition_info eng full_key)%list.

Definition allowed_values_line (enum_values : list string) : string :=
  "Allowed values: " ++ join ", " enum_values.

Definition get_entry_metadata (eng : Engine) (cache : Cache) (full_key : string)
  : Metadata * Cache :=
  match cache !! full_key with
  | Some (value, type_label, subkeys, comments, info_lines) =>
      let validator := fst (choose_validator full_key value) in
      ((value, type_label, subkeys, comments, info_lines, validator), cache)
  | None =>
      let value :=
        match read_entry eng full_key with
        | Some v => v
        | None => "<error reading value>"
        end in
      let chosen := choose_validator full_key value in
      let subkeys := list_subkeys eng full_key in
      let comments := get_entry_comments eng full_key in
      let info_lines := info_with_bc eng full_key in
      let enum_values := get_entry_enum_values eng full_key in
      let '(validator, type_label, info_lines) :=
        match enum_values with
        | [] => (fst chosen, snd chosen, info_lines)
        | _ :: _ =>
            (enum_validator (list_to_set enum_values), "enum",
             (info_lines ++ [allowed_values_line enum_values])%list)
        end in
      ((value, type_label, subkeys, comments, info_lines, validator),
       <[full_key := (value, type_label, subkeys, comments, info_lines)]> cache)
  end.

Definition refresh_entry_cache (eng : Engine) (cache : Cache) (full_key : string)
  : Cache :=
  match read_entry eng full_key with
  | None => cache
  | Some value =>
      let type_label := snd (choose_validator full_key value) in
      let subkeys := list_subkeys eng full_key in
      let comments := get_entry_comments eng full_key in
      let info_lines := info_with_bc eng full_key in
      <[full_key := (value, type_label, subkeys, comments, info_lines)]> cache
  end.

(** The engine [eng] with another answer of [get_entry_enum_values]. *)
Definition with_enum_values (eng : Engine) (f : string -> list string) : Engine :=
  {| read_entry := read_entry eng;
     list_subkeys := list_subkeys eng;
     get_entry_comments := get_entry_comments eng;
     get_entry_info := get_entry_info eng;
     get_entry_enum_values := f |}.

End EntryMeta.

(* ===================================================================== *)
(** * browser.py: the entry browser *)
(* ===================================================================== *)

Module Browser.
Import PyStr Validation EntryMeta.

(** A frame of [stack]: (base_entry, keywords, index). *)
Abbreviation Frame := (option string * list string * Z)%type.

(** The local variables of [entry_browser_screen] that survive one turn of
    its [while True] loop, and [shown], the texts handed to
    [callbacks.show_message] so far (oldest first).  Drawing and
    [list_scroll] are left out: they read this state and never write it. *)
Record State : Type := {
  base_entry : option string;
  keywords : list string;
  index : Z;
  stack : list Frame;
  cache : Cache;
  shown : list string
}.

(** [stack.pop()]: the last element and the list without it. *)
Fixpoint pop {A} (l : list A) : option (list A * A) :=
  match l with
  | [] => None
  | [x] => Some ([], x)
  | x :: t =>
      match pop t with
      | Some (t', y) => Some (x :: t', y)
      | None => None
      end
  end.

(** What the search prompt yields: with [fzf_enabled()] the standard output
    of the [fzf] process ([None] for a non-zero return code), otherwise the
    typed query. *)
Inductive SearchInput : Type :=
| FzfPick (out : option string)
| Typed (query : string).

(** The keys of the loop that touch the navigation state or the cache.
    [KeyEnter] stands for l, e, Right and Enter; it carries the state of the
    file as the inline editor leaves it, which matters only when the entry
    has no sub-keys. *)
Inductive Key : Type :=
| KeyUp
| KeyDown
| KeyTop
| KeyBottom
| KeyBack
| KeyEnter (after_edit : Engine)
| KeySearch (input : SearchInput).

(** One turn of the loop: go on with a new state, [return], or die of an
    [IndexError]. *)
Inductive Outcome : Type :=
| Continue (st : State)
| Return
| Raise.

Definition full_key_of (base_entry : option string) (key : string) : string :=
  match base_entry with
  | None => key
  | Some b => b ++ "." ++ key
  end.

(** The text searched for one entry: [" ".join([key, value] + comments).lower()]. *)
Definition haystack (key value : string) (comments : list string) : string :=
  lower (join " " ([key; value] ++ comments)%list).

(** The index looked at in turn [step] of the scan. *)
Definition scan_index (n current_index direction step : Z) : Z :=
  (current_index + direction * step) mod n.

(** [for step in range(1, n + 1)] from turn [step] on, [todo] turns being
    left.  The outer [None] is an [IndexError] of [keywords[idx]].  As in the
    source, the entry is resolved under its bare name ([full_key = key]),
    whatever the base entry of the browser. *)
Fixpoint search_steps (eng : Engine) (keywords : list string)
    (current_index direction : Z) (q : string) (todo : nat) (step : Z)
    (cache : Cache) : option (option Z * Cache) :=
  match todo with
  | O => Some (None, cache)
  | S todo' =>
      let n := Z.of_nat (length keywords) in
      let idx := scan_index n current_index direction step in
      match PyStr.index keywords idx with
      | None => None
      | Some key =>
          let full_key := key in
          let '(m, cache') := get_entry_metadata eng cache full_key in
          if str_in q (haystack key (meta_value m) (meta_comments m))
          then Some (Some idx, cache')
          else search_steps eng keywords current_index direction q
                            todo' (step + 1) cache'
      end
  end.

Definition _search_entries (eng : Engine) (cache : Cache) (keywords : list string)
    (current_index : Z) (query : string) (direction : Z)
  : option (option Z * Cache) :=
  match keywords with
  | [] => Some (None, cache)
  | _ :: _ =>
      let q := lower query in
      search_steps eng keywords current_index direction q
                   (length keywords) 1 cache
  end.

Definition _fzf_pick_entry_in_file (keywords : list string) (out : option string)
  : option Z :=
  match keywords with
  | [] => None
  | _ :: _ =>
      match out with
      | None => None
      | Some stdout =>
          let selected := strip stdout in
          match selected with
          | EmptyString => None
          | _ => option_map Z.of_nat (find_index selected keywords)
          end
      end
  end.

(** Returns the new index, the cache and the messages shown. *)
Definition _entry_browser_search (eng : Engine) (cache : Cache)
    (keywords : list string) (index : Z) (input : SearchInput)
  : option (option Z * Cache * list string) :=
  match input with
  | FzfPick out => Some (_fzf_pick_entry_in_file keywords out, cache, [])
  | Typed query =>
      match query with
      | EmptyString => Some (None, cache, [])
      | _ =>
          match _search_entries eng cache keywords index query 1 with
          | None => None
          | Some (None, cache') =>
              Some (None, cache', ["No matches for '" ++ query ++ "'."])
          | Some (Some new_index, cache') => Some (Some new_index, cache', [])
          end
      end
  end.

(** The editor session itself ([EntryEditor.edit]) has no access to the
    cache; [eng_after] is the file as the session leaves it. *)
Definition _entry_browser_inline_edit (eng_after : Engine) (cache : Cache)
    (full_key : string) : Cache :=
  refresh_entry_cache eng_after cache full_key.

(** One turn of the [while True] loop of [entry_browser_screen] on key [k],
    the file being in state [eng] when the turn starts. *)
Definition step (eng : Engine) (st : State) (k : Key) : Outcome :=
  match PyStr.index (keywords st) (index st) with
  | None => Raise
  | Some key =>
      let full_key := full_key_of (base_entry st) key in
      let '((value, type_label, subkeys, comments, info_lines, validator), cache1) :=
        get_entry_metadata eng (cache st) full_key in
      let n := Z.of_nat (length (keywords st)) in
      let moved i :=
        Continue {| base_entry := base_entry st; keywords := keywords st;
                    index := i; stack := stack st; cache := cache1;
                    shown := shown st |} in
      match k with
      | KeyUp => moved ((index st - 1) mod n)
      | KeyDown => moved ((index st + 1) mod n)
      | KeyTop => moved 0
      | KeyBottom => moved (n - 1)
      | KeyBack =>
          match pop (stack st) with
          | Some (rest, (b, ks, i)) =>
              Continue {| base_entry := b; keywords := ks; index := i;
                          stack := rest; cache := cache1; shown := shown st |}
          | None => Return
          end
      | KeyEnter after_edit =>
          match subkeys with
          | _ :: _ =>
              Continue {| base_entry := Some full_key; keywords := subkeys;
                          index := 0;
                          stack := (stack st ++ [(base_entry st, keywords st, index st)])%list;
                          cache := cache1; shown := shown st |}
          | [] =>
              Continue {| base_entry := base_entry st; keywords := keywords st;
                          index := index st; stack := stack st;
                          cache := _entry_browser_inline_edit after_edit cache1 full_key;
                          shown := shown st |}
          end
      | KeySearch input =>
          match _entry_browser_search eng cache1 (keywords st) (index st) input with
          | None => Raise
          | Some (new_index, cache2, msgs) =>
              Continue {| base_entry := base_entry st; keywords := keywords st;
                          index := match new_index with
                                   | Some i => i
                                   | None => index st
                                   end;
                          stack := stack st; cache := cache2;
                          shown := (shown st ++ msgs)%list |}
          end
      end
  end.

(** ** Notions used to state the properties of the browser *)

(** The match test of [_search_entries], as the code has it: the lower-cased
    query occurs in the lower-cased text made of the key name and of the
    value and comments that [get_entry_metadata] gives for the bare name
    [key] ([full_key = key]), whatever the base entry of the browser. *)
Definition entry_matches (eng : Engine) (cache : Cache) (keywords : list string)
    (query : string) (idx : Z) : bool :=
  match PyStr.index keywords idx with
  | None => false
  | Some key =>
      let m := fst (get_entry_metadata eng cache key) in
      str_in (lower query) (haystack key (meta_value m) (meta_comments m))
  end.

(** The match test of the claim, for comparison with [entry_matches]: the
    query occurs, case put aside, in the concatenation of the key name, the
    resolved value and the comments of the entry at position [idx] of the
    sibling list.  The value and the comments are those of the entry itself,
    resolved as the loop of [entry_browser_screen] resolves and shows them:
    under [base_entry.key] below the top level, under [key] at the top
    level. *)
Definition sibling_matches (eng : Engine) (cache : Cache)
    (base_entry : option string) (keywords : list string) (query : string)
    (idx : Z) : bool :=
  match PyStr.index keywords idx with
  | None => false
  | Some key =>
      let m := fst (get_entry_metadata eng cache (full_key_of base_entry key)) in
      str_in (lower query)
             (lower (join " " ([key; meta_value m] ++ meta_comments m)%list))
  end.

(** The cursor is on an element of the list. *)
Definition cursor_ok (keywords : list string) (index : Z) : Prop :=
  0 <= index < Z.of_nat (length keywords).

Definition frame_ok (frame : Frame) : Prop :=
  let '(_, keywords, index) := frame in cursor_ok keywords index.

(** The cursor of the state and of every frame of its stack is on an
    element of its list. *)
Definition well_formed (st : State) : Prop :=
  cursor_ok (keywords st) (index st) /\ Forall frame_ok (stack st).

(** [result] is the first match of the cyclic scan that starts at
    [(current_index + direction) mod n] and makes at most [n] turns, or
    [None] when no turn of the scan finds a match. *)
Definition first_match (eng : Engine) (cache : Cache) (keywords : list string)
    (query : string) (current_index direction : Z) (result : option Z) : Prop :=
  let n := Z.of_nat (length keywords) in
  match result with
  | Some idx =>
      exists step, 1 <= step <= n
        /\ idx = scan_index n current_index direction step
        /\ entry_matches eng cache keywords query idx = true
        /\ forall step', 1 <= step' < step ->
             entry_matches eng cache keywords query
               (scan_index n current_index direction step') = false
  | None =>
      forall step, 1 <= step <= n ->
        entry_matches eng cache keywords query
          (scan_index n current_index direction step) = false
  end.

End Browser.

(* ===================================================================== *)
(** * app.py: the background syntax check *)
(* ===================================================================== *)

Module App.
Import PyStr.

(** [FileCheckResult] of [openfoam.py], with the three fields [app.py]
    reads.  A [Path] is modelled by its text. *)
Record FileCheckResult : Type := {
  checked : bool;
  errors : list string;
  warnings : list string
}.

Abbreviation Results := (gmap string FileCheckResult).

(** The [check_*] fields of [AppState], all guarded by [check_lock]. *)
Record AppState : Type := {
  check_in_progress : bool;
  check_total : Z;
  check_done : Z;
  check_current : option string;
  check_results : option Results
}.

(** ** The worker of [_start_check_thread] *)

(** A call [verify_case] makes on one of the two callbacks it is given. *)
Inductive Call : Type :=
| Progress (path : string)
| Result (path : string) (result : FileCheckResult).

(** How a call of [verify_case] ends: it returns its dictionary, or raises
    one of the exceptions the worker catches ([OpenFOAMError], [OSError]). *)
Inductive Ending : Type :=
| Returned (results : Results)
| Raised.

(** All the worker sees of one call of [verify_case]: the callback calls in
    the order they are made, and the ending. *)
Record Run : Type := {
  calls : list Call;
  ending : Ending
}.

(** The first [with state.check_lock:] block of [worker]. *)
Definition begin (total : Z) (st : AppState) : AppState :=
  {| check_in_progress := true; check_total := total; check_done := 0;
     check_current := None; check_results := Some ∅ |}.

Definition progress_callback (path : string) (st : AppState) : AppState :=
  {| check_in_progress := check_in_progress st;
     check_total := check_total st;
     check_done := check_done st + 1;
     check_current := Some path;
     check_results := check_results st |}.

Definition result_callback (path : string) (result : FileCheckResult)
    (st : AppState) : AppState :=
  let results :=
    match check_results st with
    | None => ∅
    | Some m => m
    end in
  {| check_in_progress := check_in_progress st;
     check_total := check_total st;
     check_done := check_done st;
     check_current := check_current st;
     check_results := Some (<[path := result]> results) |}.

(** The last [with state.check_lock:] block of [worker]. *)
Definition finish (results : Results) (st : AppState) : AppState :=
  {| check_in_progress := false;
     check_total := check_total st;
     check_done := check_done st;
     check_current := check_current st;
     check_results := Some results |}.

Definition on_call (c : Call) (st : AppState) : AppState :=
  match c with
  | Progress path => progress_callback path st
  | Result path result => result_callback path result st
  end.

(** The states after each callback call, in order. *)
Fixpoint run_calls (cs : list Call) (st : AppState) : list AppState :=
  match cs with
  | [] => []
  | c :: rest => let st' := on_call c st in st' :: run_calls rest st'
  end.

(** [sum(len(files) for files in sections.values())]. *)
Definition total_files (sections : list (string * list string)) : Z :=
  Z.of_nat (length (concat (map snd sections))).

(** The body of the [try] statement: the dictionary assigned to [results]. *)
Definition results_of (e : Ending) : Results :=
  match e with
  | Returned results => results
  | Raised => ∅
  end.

(** [worker]: the successive values of the shared state, one per critical
    section, from the state the first block leaves to the state the last
    block leaves.  [sections] is what [discover_case_files] returns and
    [run] what [verify_case] does.  An exception of another type than the
    two caught leaves the thread before the last block: that path is
    [CheckScreen.worker_trace]. *)
Definition worker (sections : list (string * list string)) (run : Run)
    (st : AppState) : list AppState :=
  let st0 := begin (total_files sections) st in
  let mid := run_calls (calls run) st0 in
  (st0 :: mid ++ [finish (results_of (ending run)) (List.last mid st0)])%list.

(** The state the worker leaves when it ends. *)
Definition final (sections : list (string * list string)) (run : Run)
    (st : AppState) : AppState :=
  List.last (worker sections run st) st.

(** The state just before the last critical section: what the callbacks
    have collected. *)
Definition collected (sections : list (string * list string)) (run : Run)
    (st : AppState) : AppState :=
  List.last (run_calls (calls run) (begin (total_files sections) st))
            (begin (total_files sections) st).

(** ** [verify_case] *)

(** What checking one file comes to. *)
Inductive CheckOutcome : Type :=
| Checked (errs warns : list string)
| EngineError (msg : string)
| ProcessError.

Definition stored_result (errs warns : list string) : FileCheckResult :=
  {| checked := true; errors := errs; warnings := warns |}.

(** Modelled from the spec: [verify_case] of openfoam.py (the module itself
    is not available).  "For each file in a fixed, deterministic order:
    invoke a single-file check primitive; on success, store
    CheckResult{checked:true, errors, warnings} for that file; on an
    engine-reported error for that specific file, still store a terminal
    result for it with checked:true and the error captured as an error
    entry; only a process-level exception aborts the whole run, leaving files
    not yet reached without any stored result.  After each file: atomically
    update done += 1 and current := this file's path." *)
Fixpoint verify_case (check : string -> CheckOutcome) (files : list string)
    (acc : Results) : Run :=
  match files with
  | [] => {| calls := []; ending := Returned acc |}
  | f :: rest =>
      let go result :=
        let r := verify_case check rest (<[f := result]> acc) in
        {| calls := Result f result :: Progress f :: calls r;
           ending := ending r |} in
      match check f with
      | Checked errs warns => go (stored_result errs warns)
      | EngineError msg => go (stored_result [msg] [])
      | ProcessError => {| calls := []; ending := Raised |}
      end
  end.

(** The files of a case in discovery order: "grouped by section, files
    within a section in their discovered order". *)
Definition case_files (sections : list (string * list string)) : list string :=
  concat (map snd sections).

(** ** [_check_labels] *)

Section CheckLabels.

(** [str(file_path.relative_to(case_path))], from [pathlib]. *)
Variable relative_to : string -> string -> string.

(** The [if]/[elif] chain of the loop body. *)
Definition status_of (check : option FileCheckResult) : string :=
  match check with
  | None => "Not checked"
  | Some c =>
      if negb (checked c) then "Not checked"
      else
        match errors c with
        | _ :: _ => "ERROR (" ++ of_nat (length (errors c)) ++ ")"
        | [] =>
            match warnings c with
            | _ :: _ => "Warn (" ++ of_nat (length (warnings c)) ++ ")"
            | [] => "OK"
            end
        end
  end.

Fixpoint check_labels_loop (case_path : string) (results : Results)
    (files : list string) (labels : list string)
    (checks : list (option FileCheckResult))
  : list string * list (option FileCheckResult) :=
  match files with
  | [] => (labels, checks)
  | file_path :: rest =>
      let rel := relative_to file_path case_path in
      let check := results !! file_path in
      let status := status_of check in
      let label := rel ++ ": " ++ status in
      check_labels_loop case_path results rest
        (labels ++ [label])%list (checks ++ [check])%list
  end.

(** [state.check_results or {}]. *)
Definition results_or_empty (st : AppState) : Results :=
  match check_results st with
  | None => ∅
  | Some m => m
  end.

Definition _check_labels (case_path : string) (files : list string)
    (st : AppState) : list string * list (option FileCheckResult) :=
  check_labels_loop case_path (results_or_empty st) files [] [].

End CheckLabels.

(** ** Notions used to state the properties of the run *)

(** The result stored for file [f], if the results map exists and has one. *)
Definition stored (st : AppState) (f : string) : option FileCheckResult :=
  match check_results st with
  | None => None
  | Some m => m !! f
  end.

(** From state [a] to state [b] no stored result is removed or replaced. *)
Definition keeps_entries (a b : AppState) : Prop :=
  forall f r, stored a f = Some r -> stored b f = Some r.

(** [keeps_entries] holds for every pair of successive states. *)
Fixpoint entries_stable (trace : list AppState) : Prop :=
  match trace with
  | a :: rest =>
      match rest with
      | b :: _ => keeps_entries a b /\ entries_stable rest
      | [] => True
      end
  | [] => True
  end.

(** Every stored result of the state is terminal. *)
Definition all_terminal (st : AppState) : Prop :=
  forall f r, stored st f = Some r -> checked r = true.

(** The paths [verify_case] reports a result for, in order. *)
Fixpoint result_paths (cs : list Call) : list string :=
  match cs with
  | [] => []
  | Result path _ :: rest => path :: result_paths rest
  | Progress _ :: rest => result_paths rest
  end.

(** The dictionary made of the results reported, on top of [acc]. *)
Fixpoint results_built (cs : list Call) (acc : Results) : Results :=
  match cs with
  | [] => acc
  | Result path result :: rest => results_built rest (<[path := result]> acc)
  | Progress _ :: rest => results_built rest acc
  end.

(** Every result reported is terminal. *)
Definition reports_terminal (cs : list Call) : Prop :=
  forall path result, Result path result ∈ cs -> checked result = true.

(** The run ends not in progress and with exactly the results that the
    callbacks had collected. *)
Definition partial_results_kept (sections : list (string * list string))
    (run : Run) (st : AppState) : Prop :=
  check_in_progress (final sections run st) = false
  /\ check_results (final sections run st)
     = check_results (collected sections run st).

End App.

(* ===================================================================== *)
(** * Sample inputs *)
(* ===================================================================== *)

Module Samples.
Import App.

(** A dictionary with a boundary patch whose [type] entry has two allowed
    values, and a sub-dictionary [PIMPLE]. *)
Definition sample_engine : Engine :=
  {| read_entry := fun k =>
       if String.eqb k "type" then Some "fixedValue"
       else if String.eqb k "PIMPLE" then Some "{ nCorrectors 2; }"
       else if String.eqb k "PIMPLE.nCorrectors" then Some "2"
       else if String.eqb k "solver" then Some "PCG"
       else None;
     list_subkeys := fun k =>
       if String.eqb k "PIMPLE" then ["nCorrectors"] else [];
     get_entry_comments := fun k =>
       if String.eqb k "solver" then ["// linear solver"] else [];
     get_entry_info := fun _ => [];
     get_entry_enum_values := fun k =>
       if String.eqb k "type" then ["fixedValue"; "zeroGradient"] else [] |}.

Definition sample_state : Browser.State :=
  {| Browser.base_entry := None;
     Browser.keywords := ["type"; "PIMPLE"; "solver"];
     Browser.index := 1;
     Browser.stack := [];
     Browser.cache := ∅;
     Browser.shown := [] |}.

(** A dictionary [PIMPLE] with three entries, one of them commented, and
    nothing else named like them at the top level. *)
Definition pimple_engine : Engine :=
  {| read_entry := fun k =>
       if String.eqb k "PIMPLE"
       then Some "{ momentumPredictor yes; nCorrectors 2; nOuterCorrectors 1; }"
       else if String.eqb k "PIMPLE.momentumPredictor" then Some "yes"
       else if String.eqb k "PIMPLE.nCorrectors" then Some "2"
       else if String.eqb k "PIMPLE.nOuterCorrectors" then Some "1"
       else None;
     list_subkeys := fun k =>
       if String.eqb k "PIMPLE"
       then ["momentumPredictor"; "nCorrectors"; "nOuterCorrectors"]
       else [];
     get_entry_comments := fun k =>
       if String.eqb k "PIMPLE.nOuterCorrectors" then ["// outer loops"]
       else [];
     get_entry_info := fun _ => [];
     get_entry_enum_values := fun _ => [] |}.

(** The browser as it opens on that file. *)
Definition pimple_state : Browser.State :=
  {| Browser.base_entry := None;
     Browser.keywords := ["PIMPLE"];
     Browser.index := 0;
     Browser.stack := [];
     Browser.cache := ∅;
     Browser.shown := [] |}.

Definition idle : AppState :=
  {| check_in_progress := false; check_total := 0; check_done := 0;
     check_current := None; check_results := None |}.

Definition sample_sections : list (string * list string) :=
  [("system", ["system/controlDict"; "system/fvSchemes"]);
   ("constant", ["constant/transportProperties"])].

(** Two errors, one warning, one clean file. *)
Definition sample_check (f : string) : CheckOutcome :=
  if String.eqb f "system/controlDict" then Checked ["e1"; "e2"] []
  else if String.eqb f "system/fvSchemes" then Checked [] ["w1"]
  else Checked [] [].

(** The first file is checked, launching the check of the second fails. *)
Definition failing_check (f : string) : CheckOutcome :=
  if String.eqb f "system/controlDict" then Checked [] []
  else ProcessError.

Definition sample_relative_to (file_path case_path : string) : string :=
  file_path.

End Samples.

(* ===================================================================== *)
(** * More Python primitives *)
(* ===================================================================== *)

Module PyText.
Import PyStr.

(** [ord(c)] of a one-character string. *)
Definition ord (c : ascii) : Z := Z.of_N (N_of_ascii c).

(** [chr(n)] for a code point below 256. *)
Definition chr (n : Z) : ascii := ascii_of_N (Z.to_N n).

(** ["".join(buffer)] for a list of one-character strings. *)
Definition text_of (buffer : list ascii) : string := string_of_list_ascii buffer.

(** [list(s)]. *)
Definition chars_of (s : string) : list ascii := list_ascii_of_string s.

(** [s.startswith(prefix)]. *)
Definition startswith (s prefix : string) : bool := String.prefix prefix s.

(** [str.isalnum] on one code point below 256. *)
Definition is_alnum (c : ascii) : bool :=
  let n := code c in
  ((48 <=? n) && (n <=? 57) || (65 <=? n) && (n <=? 90)
   || (97 <=? n) && (n <=? 122) || (n =? 170) || (178 <=? n) && (n <=? 179)
   || (n =? 181) || (185 <=? n) && (n <=? 186) || (188 <=? n) && (n <=? 190)
   || (192 <=? n) && (n <=? 214) || (216 <=? n) && (n <=? 246)
   || (248 <=? n) && (n <=? 255))%N.

(** ["".join(ch for ch in s if p(ch))]. *)
Fixpoint keep_chars (p : ascii -> bool) (s : string) : string :=
  match s with
  | EmptyString => EmptyString
  | String c t => if p c then String c (keep_chars p t) else keep_chars p t
  end.

(** [l.insert(i, x)]: an index beyond the end appends, a negative index
    counts from the end and stops at the front. *)
Definition list_insert_at {A} (i : Z) (x : A) (l : list A) : list A :=
  let n := Z.of_nat (length l) in
  let pos := if i <? 0 then Z.max 0 (n + i) else Z.min i n in
  (take (Z.to_nat pos) l ++ x :: drop (Z.to_nat pos) l)%list.

(** [l.pop(i)]: the list without its element at [i]; [None] stands for
    [IndexError]. *)
Definition list_pop_at {A} (i : Z) (l : list A) : option (list A) :=
  let n := Z.of_nat (length l) in
  if (0 <=? i) && (i <? n) then Some (delete (Z.to_nat i) l)
  else if (- n <=? i) && (i <? 0) then Some (delete (Z.to_nat (n + i)) l)
  else None.

(** [sorted(set(l))]: the distinct strings of [l] in code-point order. *)
Definition sorted_set (l : list string) : list string :=
  merge_sort String.le (elements (list_to_set l : gset string)).

End PyText.

(* ===================================================================== *)
(** * config.py: key labels *)
(* ===================================================================== *)

Module Config.
Import PyText.

(** Key codes of the curses library (ncurses values). *)
Definition KEY_DOWN : Z := 258.
Definition KEY_UP : Z := 259.
Definition KEY_LEFT : Z := 260.
Definition KEY_RIGHT : Z := 261.
Definition KEY_BACKSPACE : Z := 263.
Definition KEY_ENTER : Z := 343.
Definition KEY_RESIZE : Z := 410.

Definition newline : ascii := "010"%char.

Fixpoint key_in (key : Z) (labels : list string) : bool :=
  match labels with
  | [] => false
  | label :: rest =>
      match label with
      | EmptyString => key_in key rest
      | String c EmptyString =>
          if Ascii.eqb c newline
          then if (key =? 10) || (key =? 13) then true else key_in key rest
          else if key =? ord c then true else key_in key rest
      | String _ (String _ _) => key_in key rest
      end
  end.

End Config.

(* ===================================================================== *)
(** * browser.py and app.py: scrolling of a list *)
(* ===================================================================== *)

Module Scrolling.

(** [_entry_browser_scroll] of browser.py; [height] is the first component
    of [stdscr.getmaxyx()]. *)
Definition _entry_browser_scroll (index list_scroll height total : Z) : Z :=
  let list_rows := Z.max 0 (height - 1 - 4) in
  if 0 <? list_rows then
    let list_scroll :=
      if index <? list_scroll then index
      else if list_scroll + list_rows <=? index then index - list_rows + 1
      else list_scroll in
    let max_scroll := Z.max 0 (total - list_rows) in
    if max_scroll <? list_scroll then max_scroll else list_scroll
  else 0.

(** [_menu_scroll] of app.py. *)
Definition _menu_scroll (current scroll height total header_rows : Z) : Z :=
  let visible := Z.max 0 (height - header_rows - 1) in
  if visible <=? 0 then 0
  else
    let scroll :=
      if current <? scroll then current
      else if scroll + visible <=? current then current - visible + 1
      else scroll in
    let max_scroll := Z.max 0 (total - visible) in
    if max_scroll <? scroll then max_scroll else scroll.

End Scrolling.

(* ===================================================================== *)
(** * app.py: the command prompt *)
(* ===================================================================== *)

Module Prompt.
Import PyStr PyText Config.

(** The local variables of [_prompt_command]. *)
Record State : Type := {
  buffer : list ascii;
  cursor : Z;
  last_matches : list string;
  match_index : Z;
  last_buffer : string
}.

Definition initial : State :=
  {| buffer := []; cursor := 0; last_matches := []; match_index := 0;
     last_buffer := "" |}.

(** One turn of the [while True] loop: the prompt goes on, returns a text,
    or dies of an [IndexError] ([buffer.pop]). *)
Inductive Outcome : Type :=
| Next (st : State)
| Done (text : string)
| Crash.

Definition prompt_key (suggestions : option (list string)) (st : State)
    (key : Z) : Outcome :=
  if (key =? KEY_ENTER) || (key =? 10) || (key =? 13)
  then Done (strip (text_of (buffer st)))
  else if key =? 27 then Done ""
  else if (key =? KEY_BACKSPACE) || (key =? 127) || (key =? 8) then
    if 0 <? cursor st then
      match list_pop_at (cursor st - 1) (buffer st) with
      | None => Crash
      | Some b =>
          Next {| buffer := b; cursor := cursor st - 1;
                  last_matches := last_matches st;
                  match_index := match_index st;
                  last_buffer := last_buffer st |}
      end
    else Next st
  else if key =? KEY_LEFT then
    if 0 <? cursor st then
      Next {| buffer := buffer st; cursor := cursor st - 1;
              last_matches := last_matches st;
              match_index := match_index st;
              last_buffer := last_buffer st |}
    else Next st
  else if key =? KEY_RIGHT then
    if cursor st <? Z.of_nat (length (buffer st)) then
      Next {| buffer := buffer st; cursor := cursor st + 1;
              last_matches := last_matches st;
              match_index := match_index st;
              last_buffer := last_buffer st |}
    else Next st
  else if key =? 9 then
    let pool := match suggestions with Some l => l | None => [] end in
    let current := text_of (buffer st) in
    let '(matches, idx, lastb) :=
      if String.eqb current (last_buffer st)
      then (last_matches st, match_index st, last_buffer st)
      else (List.filter (fun s => startswith s current) pool, 0, current) in
    match matches with
    | [] =>
        Next {| buffer := buffer st; cursor := cursor st;
                last_matches := matches; match_index := idx;
                last_buffer := lastb |}
    | _ :: _ =>
        match PyStr.index matches (idx mod Z.of_nat (length matches)) with
        | None => Crash
        | Some completion =>
            Next {| buffer := chars_of completion;
                    cursor := Z.of_nat (length (chars_of completion));
                    last_matches := matches; match_index := idx + 1;
                    last_buffer := lastb |}
        end
    end
  else if (32 <=? key) && (key <=? 126) then
    Next {| buffer := list_insert_at (cursor st) (chr key) (buffer st);
            cursor := cursor st + 1;
            last_matches := last_matches st;
            match_index := match_index st;
            last_buffer := last_buffer st |}
  else Next st.

(** The prompt fed with the keys of [keys], from state [st]; [None] when the
    keys run out before the prompt returns. *)
Fixpoint prompt_run (suggestions : option (list string)) (st : State)
    (keys : list Z) : option Outcome :=
  match keys with
  | [] => None
  | key :: rest =>
      match prompt_key suggestions st key with
      | Next st' =>
          match rest with
          | [] => Some (Next st')
          | _ :: _ => prompt_run suggestions st' rest
          end
      | o => Some o
      end
  end.

(** ** Notions used to state the properties of the prompt *)

(** The cursor is within the buffer. *)
Definition cursor_in_buffer (st : State) : Prop :=
  0 <= cursor st <= Z.of_nat (length (buffer st)).

(** The remembered matches are suggestions that start with the remembered
    text. *)
Definition matches_sound (suggestions : option (list string)) (st : State) : Prop :=
  forall s, In s (last_matches st) ->
    In s (match suggestions with Some l => l | None => [] end)
    /\ startswith s (last_buffer st) = true.

End Prompt.

(* ===================================================================== *)
(** * tools.py: tool names *)
(* ===================================================================== *)

Module Tools.
Import PyStr PyText.

Definition tool_name_char (ch : ascii) : bool :=
  is_alnum ch || Ascii.eqb ch "-" || Ascii.eqb ch "_" || Ascii.eqb ch "."
  || Ascii.eqb ch ":".

Definition _normalize_tool_name (name : string) : string :=
  let lowered := lower (strip name) in
  keep_chars tool_name_char lowered.

(** What an alias runs: the closure [run_simple(name, cmd)] or one of the
    screens and prompts of tools.py. *)
Inductive Handler : Type :=
| RunSimple (name : string) (cmd : list string)
| RerunLastTool
| FoamJobPrompt
| FoamEndJobPrompt
| JobStatusPollScreen
| RunShellScriptScreen
| FoamDictionaryPrompt
| PostProcessPrompt
| FoamCalcPrompt
| TopoSetPrompt
| ToolDictsScreen
| RunCurrentSolver
| RemoveAllLogs
| CleanTimeDirectories
| CleanCase.

(** A preset: (name, command). *)
Abbreviation Preset := (string * list string)%type.

Definition base_tools : list Preset :=
  [("blockMesh", ["blockMesh"]); ("decomposePar", ["decomposePar"]);
   ("reconstructPar", ["reconstructPar"]); ("foamListTimes", ["foamListTimes"])].

Definition job_tools : list Preset :=
  [("foamCheckJobs", ["foamCheckJobs"]); ("foamPrintJobs", ["foamPrintJobs"])].

Definition simple_entry (p : Preset) : string * Handler :=
  (fst p, RunSimple (fst p) (snd p)).

Definition post_entries (p : Preset) : list (string * Handler) :=
  [(fst p, RunSimple (fst p) (snd p));
   ("post." ++ fst p, RunSimple (fst p) (snd p));
   ("post:" ++ fst p, RunSimple (fst p) (snd p))].

Definition fixed_entries : list (string * Handler) :=
  [("rerun", RerunLastTool); ("last", RerunLastTool);
   ("foamjob", FoamJobPrompt); ("foamendjob", FoamEndJobPrompt);
   ("jobstatus", JobStatusPollScreen); ("job_status", JobStatusPollScreen);
   ("runscript", RunShellScriptScreen);
   ("foamdictionary", FoamDictionaryPrompt);
   ("postprocess", PostProcessPrompt); ("foamcalc", FoamCalcPrompt);
   ("toposet", TopoSetPrompt); ("tool_dicts", ToolDictsScreen);
   ("tooldicts", ToolDictsScreen); ("runcurrentsolver", RunCurrentSolver);
   ("removelogs", RemoveAllLogs); ("cleantimedirs", CleanTimeDirectories);
   ("cleancase", CleanCase)].

(** The calls of [add] made by [_tool_aliases], in order; [extra_tools] is
    what [load_tool_presets] returns and [post_tools] what
    [load_postprocessing_presets] returns. *)
Definition alias_entries (extra_tools post_tools : list Preset)
  : list (string * Handler) :=
  (map simple_entry (base_tools ++ extra_tools ++ job_tools)
   ++ flat_map post_entries post_tools
   ++ fixed_entries)%list.

(** The local function [add] of [_tool_aliases]. *)
Definition add (aliases : gmap string Handler) (entry : string * Handler)
  : gmap string Handler :=
  <[_normalize_tool_name (fst entry) := snd entry]> aliases.

Definition _tool_aliases (extra_tools post_tools : list Preset)
  : gmap string Handler :=
  fold_left add (alias_entries extra_tools post_tools) ∅.

Definition post_keys (p : Preset) : list string :=
  [_normalize_tool_name (fst p);
   _normalize_tool_name ("post." ++ fst p);
   _normalize_tool_name ("post:" ++ fst p)].

Definition fixed_names : list string :=
  ["rerun"; "last"; "foamJob"; "foamEndJob"; "runScript"; "foamDictionary";
   "postProcess"; "foamCalc"; "topoSet"; "tool_dicts"; "toolDicts";
   "runCurrentSolver"; "removeLogs"; "cleanTimeDirs"; "cleanCase"].

Definition _tool_alias_keys (extra_tools post_tools : list Preset) : list string :=
  (map (fun p => _normalize_tool_name (fst p))
       (base_tools ++ extra_tools ++ job_tools)
   ++ flat_map post_keys post_tools
   ++ map _normalize_tool_name fixed_names)%list.

Definition list_tool_commands (extra_tools post_tools : list Preset) : list string :=
  sorted_set (_tool_alias_keys extra_tools post_tools).

(** [run_tool_by_name]: the handler it calls before returning [True], or
    [None] where it returns [False]. *)
Definition run_tool_by_name (extra_tools post_tools : list Preset)
    (name : string) : option Handler :=
  _tool_aliases extra_tools post_tools !! _normalize_tool_name name.

End Tools.

(* ===================================================================== *)
(** * commands.py *)
(* ===================================================================== *)

Module Commands.
Import PyStr PyText Tools.

(** What [handle_command] does besides returning: the callbacks it calls,
    the handler [run_tool_by_name] runs, and the writes to
    [os.environ["OF_TUI_NO_FOAM"]]. *)
Inductive Action : Type :=
| CheckSyntax
| ToolsScreen
| DiagnosticsScreen
| RunCurrentSolverScreen
| ShowMessage (message : string)
| RunHandler (handler : Handler)
| SetEnvNoFoam
| PopEnvNoFoam.

(** The value returned, [state.no_foam] afterwards and the actions in order;
    or the [IndexError] of [parts[0]]. *)
Inductive Reply : Type :=
| Replied (result : option string) (no_foam : bool) (actions : list Action)
| IndexError.

Definition command_suggestions (tool_names : list string) : list string :=
  let base := ["check"; "tools"; "diag"; "run"; "nofoam"; "no-foam"; "quit"; "help"] in
  let tool := map (fun name => "tool " ++ name) tool_names in
  let run := map (fun name => "run " ++ name) tool_names in
  sorted_set (base ++ tool ++ run ++ tool_names)%list.

Definition one_of (name : string) (names : list string) : bool :=
  existsb (String.eqb name) names.

(** [cmd[1:]]. *)
Definition tail (s : string) : string :=
  match s with
  | EmptyString => EmptyString
  | String _ t => t
  end.

(** [s.replace(ch, "")] for a one-character [ch]. *)
Definition remove_char (ch : ascii) (s : string) : string :=
  keep_chars (fun c => negb (Ascii.eqb c ch)) s.

(** The text [cmd] that [handle_command] works on. *)
Definition command_text (command : string) : string :=
  let cmd := strip command in
  if startswith cmd ":" then strip (tail cmd) else cmd.

(** The two branches that take a tool name as argument. *)
Definition run_named (extra_tools post_tools : list Preset) (tool_name : string)
  : list Action :=
  match run_tool_by_name extra_tools post_tools tool_name with
  | Some handler => [RunHandler handler]
  | None => [ShowMessage ("Unknown tool: " ++ tool_name)]
  end.

Definition set_mode (desired : bool) : Reply :=
  Replied (Some "handled") desired
    [if desired then SetEnvNoFoam else PopEnvNoFoam;
     ShowMessage ("Mode set to " ++ (if desired then "no-foam" else "foam") ++ ".")].

(** [handle_command]; [ensure_environment] is what the call of
    [ensure_environment()] comes to: [None] when it returns, the text of the
    [OpenFOAMError] when it raises. *)
Definition handle_command (extra_tools post_tools : list Preset)
    (ensure_environment : option string) (no_foam : bool) (command : string)
  : Reply :=
  let cmd := command_text command in
  match cmd with
  | EmptyString => Replied None no_foam []
  | String _ _ =>
      match split cmd with
      | [] => IndexError
      | first :: args =>
          let name := lower first in
          let normalized := remove_char "_" (remove_char "-" name) in
          let handled actions := Replied (Some "handled") no_foam actions in
          if one_of name ["q"; "quit"; "exit"] then
            Replied (Some "quit") no_foam []
          else if one_of name ["check"; "syntax"] then handled [CheckSyntax]
          else if one_of name ["tools"; "tool"] then
            match args with
            | _ :: _ => handled (run_named extra_tools post_tools (join " " args))
            | [] => handled [ToolsScreen]
            end
          else if one_of name ["diag"; "diagnostics"] then
            handled [DiagnosticsScreen]
          else if one_of name ["run"; "solver"] then
            match args with
            | _ :: _ => handled (run_named extra_tools post_tools (join " " args))
            | [] => handled [RunCurrentSolverScreen]
            end
          else if one_of normalized ["nofoam"; "foam"] then
            let given :=
              match args with
              | a :: _ =>
                  let arg := lower a in
                  if one_of arg ["on"; "true"; "1"; "yes"] then Some true
                  else if one_of arg ["off"; "false"; "0"; "no"] then Some false
                  else None
              | [] => None
              end in
            let desired :=
              match given with
              | Some d => d
              | None => negb no_foam
              end in
            if negb desired then
              match ensure_environment with
              | Some exc =>
                  Replied (Some "handled") true
                    [ShowMessage ("Cannot enable foam mode: " ++ exc)]
              | None => set_mode desired
              end
            else set_mode desired
          else if one_of name ["help"; "?"] then
            handled [ShowMessage
                       "Commands: :check, :tools, :diag, :run, :nofoam, :tool <name>, :quit"]
          else
            match run_tool_by_name extra_tools post_tools cmd with
            | Some handler => handled [RunHandler handler]
            | None => handled [ShowMessage ("Unknown command: " ++ command)]
            end
      end
  end.

End Commands.

(* ===================================================================== *)
(** * browser.py: sequences of keys *)
(* ===================================================================== *)

Module BrowserRun.
Import EntryMeta Browser.

(** The loop of [entry_browser_screen] on a sequence of keys, each with the
    state of the file at that turn.  The result is [Continue] with the state
    reached when the keys run out first. *)
Fixpoint run (st : State) (keys : list (Engine * Key)) : Outcome :=
  match keys with
  | [] => Continue st
  | (eng, k) :: rest =>
      match step eng st k with
      | Continue st' => run st' rest
      | Return => Return
      | Raise => Raise
      end
  end.

(** ** Notions used to state the properties of the levels *)

(** The base entry for a path of keys: [None] at the top level, the keys
    joined by dots below it. *)
Definition dotted (path : list string) : option string :=
  match path with
  | [] => None
  | _ :: _ => Some (PyStr.join "." path)
  end.

(** The key under the cursor of a frame, and the base entry of a frame. *)
Definition selected (frame : Frame) : option string :=
  let '(_, ks, i) := frame in PyStr.index ks i.

Definition frame_base (frame : Frame) : option string :=
  let '(b, _, _) := frame in b.

(** [path] is the list of the keys selected on the way down, oldest first:
    one per frame of the stack, the key under the cursor of that frame; the
    base entry is the path joined by dots, and the base entry of the frame
    at depth [i] is the first [i] keys joined by dots. *)
Definition follows_path (st : State) (path : list string) : Prop :=
  Forall2 (fun frame key => selected frame = Some key) (stack st) path
  /\ base_entry st = dotted path
  /\ forall i frame, stack st !! i = Some frame ->
                     frame_base frame = dotted (take i path).

(** The frames, top first, lead to [base]: [base] is the full key of the
    entry under the cursor of the top frame, the base entry of that frame
    is the full key of the entry under the cursor of the frame below, and
    so on down to the top level, whose base entry is [None]. *)
Fixpoint path_from_top (frames : list Frame) (base : option string) : Prop :=
  match frames with
  | [] => base = None
  | (b, ks, i) :: below =>
      (exists key, PyStr.index ks i = Some key
                   /\ base = Some (full_key_of b key))
      /\ path_from_top below b
  end.

(** The base entry of the state is the path of the entries selected on the
    way down. *)
Definition path_ok (st : State) : Prop :=
  path_from_top (rev (stack st)) (base_entry st).

End BrowserRun.

(* ===================================================================== *)
(** * app.py: the check screen *)
(* ===================================================================== *)

Module CheckScreen.
Import App.

(** The test of [_check_syntax_screen] before it calls
    [_start_check_thread]. *)
Definition starts_check (st : AppState) : bool :=
  match check_results st with
  | None => negb (check_in_progress st)
  | Some _ => false
  end.





End CheckScreen.

(* ===================================================================== *)
(** * A field file with a boundary patch *)
(* ===================================================================== *)

Module Cases.

(** A file with a dictionary [boundaryField] of two patches.  The patch
    [inlet] has a [type] entry written with blanks around it and a blank
    [value] entry; nothing of the patch [outlet] can be read. *)
Definition patch_engine : Engine :=
  {| read_entry := fun k =>
       if String.eqb k "boundaryField" then Some "{ inlet { } outlet { } }"
       else if String.eqb k "boundaryField.inlet"
       then Some "{ type fixedValue; value ; }"
       else if String.eqb k "boundaryField.inlet.type"
       then Some "  fixedValue "
       else if String.eqb k "boundaryField.inlet.value" then Some "   "
       else None;
     list_subkeys := fun k =>
       if String.eqb k "boundaryField" then ["inlet"; "outlet"]
       else if String.eqb k "boundaryField.inlet" then ["type"; "value"]
       else [];
     get_entry_comments := fun _ => [];
     get_entry_info := fun _ => [];
     get_entry_enum_values := fun _ => [] |}.

(** The browser on that file, the cursor on [boundaryField]. *)
Definition patch_state : Browser.State :=
  {| Browser.base_entry := None;
     Browser.keywords := ["dimensions"; "boundaryField"];
     Browser.index := 1;
     Browser.stack := [];
     Browser.cache := ∅;
     Browser.shown := [] |}.

End Cases.

(* ===================================================================== *)
(** * Properties of entry_meta.py *)
(* ===================================================================== *)

Module PyStrFacts.
Import PyStr.

Lemma append_cons a s t : String a s ++ t = String a (s ++ t).
Proof. reflexivity. Qed.

Lemma prefix_cons a s b t :
  String.prefix (String a s) (String b t)
  = if ascii_dec a b then String.prefix s t else false.
Proof. reflexivity. Qed.

Lemma prefix_app s t : String.prefix s (s ++ t) = true.
Proof.
  induction s as [|a s IH]; [destruct t; reflexivity|].
  rewrite append_cons, prefix_cons.
  destruct (ascii_dec a a); [exact IH|contradiction].
Qed.

Lemma all_chars_impl (p q : ascii -> bool) s :
  (forall c, p c = true -> q c = true) ->
  all_chars p s = true -> all_chars q s = true.
Proof.
  intros Hpq. induction s as [|c t IH]; [done|]. cbn [all_chars].
  intros [Hc Ht]%andb_prop. now rewrite (Hpq c Hc), IH.
Qed.

Lemma all_chars_lstrip p s :
  all_chars p (lstrip s) = true ->
  all_chars (fun c => p c || is_space c) s = true.
Proof.
  induction s as [|c t IH]; [done|]. cbn [lstrip all_chars].
  destruct (is_space c) eqn:E.
  - intros H. rewrite (IH H). now rewrite orb_true_r.
  - cbn [all_chars]. intros [Hc Ht]%andb_prop. rewrite Hc. cbn.
    revert Ht. apply all_chars_impl. intros c' ->. reflexivity.
Qed.

Lemma all_chars_rstrip_with p r s :
  all_chars p (rstrip_with r s) = true ->
  all_chars (fun c => p c || r c) s = true.
Proof.
  induction s as [|c t IH]; [done|]. cbn [rstrip_with all_chars].
  destruct (rstrip_with r t) as [|c' t'] eqn:E.
  - destruct (r c) eqn:Er.
    + intros _. rewrite orb_true_r. now apply IH.
    + cbn [all_chars]. intros [Hc _]%andb_prop. rewrite Hc. now apply IH.
  - cbn [all_chars] in *. intros [Hc Ht]%andb_prop. rewrite Hc. now apply IH.
Qed.

Lemma all_chars_strip p s :
  all_chars p (strip s) = true ->
  all_chars (fun c => p c || is_space c) s = true.
Proof.
  intros H. apply all_chars_rstrip_with, all_chars_lstrip in H.
  revert H. apply all_chars_impl. intros c.
  destruct (p c), (is_space c); done.
Qed.

(** A one-character needle occurs in no string whose characters all differ
    from it. *)
Lemma str_in_char_false ch s :
  all_chars (fun c => negb (Ascii.eqb c ch)) s = true ->
  str_in (String ch EmptyString) s = false.
Proof.
  induction s as [|c t IH]; [done|]. cbn [all_chars str_in].
  intros [Hc Ht]%andb_prop. rewrite (IH Ht), orb_false_r, prefix_cons.
  destruct (ascii_dec ch c) as [->|]; [|done].
  now rewrite Ascii.eqb_refl in Hc.
Qed.

Lemma all_chars_lower (p q : ascii -> bool) s :
  (forall c, p c = true -> q (lower_char c) = true) ->
  all_chars p s = true -> all_chars q (lower s) = true.
Proof.
  intros Hpq. induction s as [|c t IH]; [done|]. cbn [all_chars lower].
  intros [Hc Ht]%andb_prop. now rewrite (Hpq c Hc), IH.
Qed.

End PyStrFacts.

Module PyNumFacts.
Import PyStr PyNum PyStrFacts.

(** The characters an accepted integer literal is made of. *)
Lemma digitpart_go_chars prev s :
  digitpart_go prev s = true ->
  all_chars (fun c => is_digit c || Ascii.eqb c "_") s = true.
Proof.
  revert prev. induction s as [|c t IH]; intros prev; [done|].
  cbn [digitpart_go all_chars]. destruct (is_digit c); [apply IH|].
  destruct (Ascii.eqb c "_"); [|done].
  intros [_ H]%andb_prop. now apply IH in H.
Qed.

Lemma all_chars_skip_num_space p s :
  all_chars p (skip_num_space s) = true ->
  all_chars (fun c => p c || is_num_space c) s = true.
Proof.
  induction s as [|c t IH]; [done|]. cbn [skip_num_space].
  destruct (is_num_space c) eqn:E.
  - intros H. cbn [all_chars]. rewrite E, orb_true_r. now apply IH.
  - cbn [all_chars]. intros [Hc Ht]%andb_prop. rewrite Hc. cbn.
    revert Ht. apply all_chars_impl. intros c' ->. reflexivity.
Qed.

Lemma all_chars_num_strip p s :
  all_chars p (num_strip s) = true ->
  all_chars (fun c => p c || is_space c) s = true.
Proof.
  intros H. apply all_chars_rstrip_with, all_chars_skip_num_space in H.
  revert H. apply all_chars_impl. intros c.
  destruct (p c); [done|]. cbn.
  destruct c as [[] [] [] [] [] [] [] []]; vm_compute; congruence.
Qed.

Lemma int_ok_chars s :
  int_ok s = true ->
  all_chars (fun c => is_digit c || Ascii.eqb c "_" || is_sign c || is_space c) s
  = true.
Proof.
  unfold int_ok. intros [H _]%andb_prop.
  apply digitpart_go_chars in H.
  assert (all_chars (fun c => is_digit c || Ascii.eqb c "_" || is_sign c)
                    (num_strip s) = true) as H'.
  { destruct (num_strip s) as [|c t]; [done|]. cbn [drop_sign all_chars] in *.
    destruct (is_sign c) eqn:E.
    - rewrite orb_true_r. cbn. revert H. apply all_chars_impl.
      intros c' ->. reflexivity.
    - revert H. cbn [all_chars]. intros [Hc Ht]%andb_prop. rewrite Hc. cbn.
      revert Ht. apply all_chars_impl. intros c' ->. reflexivity. }
  now apply all_chars_num_strip in H'.
Qed.

(** A text [int] accepts holds no "." and no "e" or "E": the second test of
    the integer branch of [choose_validator] never fails. *)
Lemma int_ok_no_dot_no_exp s :
  int_ok s = true ->
  str_in "." s = false /\ str_in "e" (lower s) = false.
Proof.
  intros H%int_ok_chars. split.
  - apply str_in_char_false. revert H. apply all_chars_impl.
    intros c Hc. destruct (Ascii.eqb_spec c "."); [subst c; discriminate Hc|done].
  - apply str_in_char_false. revert H. apply all_chars_lower.
    intros c Hc.
    destruct c as [[] [] [] [] [] [] [] []]; try reflexivity; discriminate Hc.
Qed.

End PyNumFacts.

Module EntryMetaFacts.
Import PyStr PyNum Validation EntryMeta PyStrFacts.

Lemma key_rule_label_not_enum key : snd (key_rule key) <> "enum".
Proof.
  unfold key_rule; simpl. destruct (_guess_validator key); discriminate.
Qed.

Lemma key_rule_validator_not_enum key allowed_set :
  fst (key_rule key) <> enum_validator allowed_set.
Proof.
  unfold key_rule, _guess_validator; simpl.
  repeat match goal with |- context [if ?b then _ else _] => destruct b end;
    discriminate.
Qed.

Lemma scalar_rule_cases last r :
  scalar_rule last = Some r ->
  r = (as_int, "integer") \/ r = (as_float, "float").
Proof.
  unfold scalar_rule.
  repeat match goal with |- context [if ?b then _ else _] => destruct b end;
    intros [= <-]; auto.
Qed.

(** Whatever the key and the value, [choose_validator] yields one of five
    pairs, the last two coming from the key rule. *)
Lemma choose_validator_cases key value :
  choose_validator key value = (vector_values, "vector")
  \/ choose_validator key value = (as_int, "integer")
  \/ choose_validator key value = (as_float, "float")
  \/ choose_validator key value = key_rule key.
Proof.
  unfold choose_validator.
  destruct (looks_like_vector value); [auto|].
  destruct (last_tok _) as [last|]; [|auto].
  destruct (scalar_rule last) as [r|] eqn:E; [|auto].
  destruct (scalar_rule_cases _ _ E) as [-> | ->]; auto.
Qed.

Lemma choose_validator_label_not_enum key value :
  snd (choose_validator key value) <> "enum".
Proof.
  destruct (choose_validator_cases key value) as [-> | [-> | [-> | ->]]];
    try discriminate.
  apply key_rule_label_not_enum.
Qed.

Lemma choose_validator_not_enum_validator key value allowed_set :
  fst (choose_validator key value) <> enum_validator allowed_set.
Proof.
  destruct (choose_validator_cases key value) as [-> | [-> | [-> | ->]]];
    try discriminate.
  apply key_rule_validator_not_enum.
Qed.

(** The hit path of [get_entry_metadata]. *)
Lemma get_entry_metadata_hit eng (cache : Cache) full_key
    value type_label subkeys comments info_lines :
  cache !! full_key = Some (value, type_label, subkeys, comments, info_lines) ->
  get_entry_metadata eng cache full_key
  = ((value, type_label, subkeys, comments, info_lines,
      fst (choose_validator full_key value)), cache).
Proof. intros H. unfold get_entry_metadata. now rewrite H. Qed.

(** The miss path of [get_entry_metadata] when the engine lists allowed
    values: the enum override. *)
Lemma get_entry_metadata_miss_enum eng (cache : Cache) full_key :
  cache !! full_key = None ->
  get_entry_enum_values eng full_key <> [] ->
  let m := fst (get_entry_metadata eng cache full_key) in
  meta_type_label m = "enum"
  /\ meta_validator m
     = enum_validator (list_to_set (get_entry_enum_values eng full_key))
  /\ meta_info_lines m
     = (info_with_bc eng full_key
        ++ [allowed_values_line (get_entry_enum_values eng full_key)])%list
  /\ forall v, run (meta_validator m) v = None
               <-> normalize v ∈ get_entry_enum_values eng full_key.
Proof.
  intros Hmiss Hne. unfold get_entry_metadata. rewrite Hmiss.
  destruct (get_entry_enum_values eng full_key) as [|e es] eqn:E; [done|].
  cbn [fst meta_type_label meta_validator meta_info_lines run].
  repeat split; try reflexivity.
  - case_decide as Hin; [|done]. intros _.
    by apply elem_of_list_to_set in Hin.
  - intros Hin. case_decide as Hnot; [done|].
    exfalso. apply Hnot. by apply elem_of_list_to_set.
Qed.

Lemma boundary_condition_info_prefix eng full_key line :
  line ∈ boundary_condition_info eng full_key ->
  String.prefix "BC " line = true.
Proof.
  unfold boundary_condition_info.
  destruct (find_index _ _) as [idx|]; [|by intros ?%elem_of_nil].
  destruct (_ !! _) as [patch|]; [|by intros ?%elem_of_nil].
  intros Hin. apply elem_of_cons in Hin as [-> | Hin].
  - destruct (truthy _); apply prefix_app.
  - apply list_elem_of_singleton in Hin as ->.
    destruct (truthy _); apply prefix_app.
Qed.

Lemma prefix_BC_not_allowed line :
  String.prefix "BC " line = true ->
  String.prefix "Allowed values: " line = false.
Proof.
  destruct line as [|c line]; [discriminate|].
  change "BC " with (String "B" "C ").
  change "Allowed values: " with (String "A" "llowed values: ").
  rewrite !prefix_cons.
  destruct (ascii_dec "B" c) as [<-|]; [intros _; reflexivity|discriminate].
Qed.

(** C4, as amended.  Key "relaxationFactor" with value "linear": the value
    is no vector and its last token "linear" is neither an integer nor a
    float, so [choose_validator] falls through to the key-name heuristic;
    there the substring "on" of "relaxationfactor" matches the first group
    of the heuristic, and the result is [bool_flag] with the label
    "boolean-like". *)
Theorem choose_validator_relaxationFactor_linear :
  looks_like_vector "linear" = false
  /\ last_tok (split (replace_char ";" " " "linear")) = Some "linear"
  /\ scalar_rule "linear" = None
  /\ str_in "on" (lower "relaxationFactor") = true
  /\ _guess_validator "relaxationFactor" = bool_flag
  /\ choose_validator "relaxationFactor" "linear" = (bool_flag, "boolean-like").
Proof. vm_compute. repeat split. Qed.

(** C4, as stated, fails: for key "relaxationFactor" and value "linear" the
    validator is not [non_empty] and the label is not "text". *)
Lemma choose_validator_relaxationFactor_linear_not_text :
  ~ (fst (choose_validator "relaxationFactor" "linear") = non_empty
     /\ snd (choose_validator "relaxationFactor" "linear") = "text").
Proof. vm_compute. intros [H _]. discriminate H. Qed.

(** C5.  Whatever the key, a value whose last whitespace token (semicolons
    read as spaces) is accepted by [int] and holds no "." and no "e"/"E" is
    classified integer, unless the value holds "(" and ")" and passes the
    vector validator, in which case it is classified vector. *)
Theorem choose_validator_last_token_integer key value last :
  last_tok (split (replace_char ";" " " value)) = Some last ->
  int_ok last = true ->
  str_in "." last = false ->
  str_in "e" (lower last) = false ->
  choose_validator key value
  = if str_in "(" value && str_in ")" value
       && bool_decide (run vector_values value = None)
    then (vector_values, "vector")
    else (as_int, "integer").
Proof.
  intros Hlast Hint Hdot Hexp. unfold choose_validator.
  assert (looks_like_vector value
          = str_in "(" value && str_in ")" value
            && bool_decide (run vector_values value = None)) as ->.
  { unfold looks_like_vector. f_equal.
    destruct (run vector_values value); reflexivity. }
  destruct (_ && _ && _); [reflexivity|].
  rewrite Hlast. unfold scalar_rule. now rewrite Hint, Hdot, Hexp.
Qed.

(** The same without the two side conditions, which [int] implies. *)
Corollary choose_validator_int_token key value last :
  last_tok (split (replace_char ";" " " value)) = Some last ->
  int_ok last = true ->
  looks_like_vector value = false ->
  choose_validator key value = (as_int, "integer").
Proof.
  intros Hlast Hint Hvec.
  destruct (PyNumFacts.int_ok_no_dot_no_exp last Hint) as [Hdot Hexp].
  unfold choose_validator. rewrite Hvec, Hlast. unfold scalar_rule.
  now rewrite Hint, Hdot, Hexp.
Qed.

Lemma choose_validator_last_token_integer_witness :
  choose_validator "nIterations" "5" = (as_int, "integer").
Proof.
  rewrite (choose_validator_last_token_integer "nIterations" "5" "5");
    reflexivity.
Defined.

(** C3, at a failing input.  The engine lists "fixedValue" and
    "zeroGradient" as the allowed values of key "type", whose value is
    "fixedValue".  The first resolve (cache miss) yields the label "enum" and
    the enum validator; the second resolve (cache hit) yields the label
    "enum" again, but the validator [non_empty], which accepts "banana",
    a text that is no member of the set. *)
Theorem get_entry_metadata_cache_hit_drops_enum_validator :
  let eng := Samples.sample_engine in
  let first := get_entry_metadata eng ∅ "type" in
  let second := get_entry_metadata eng (snd first) "type" in
  get_entry_enum_values eng "type" = ["fixedValue"; "zeroGradient"]
  /\ meta_type_label (fst first) = "enum"
  /\ meta_validator (fst first)
     = enum_validator (list_to_set ["fixedValue"; "zeroGradient"])
  /\ run (meta_validator (fst first)) "banana" <> None
  /\ meta_type_label (fst second) = "enum"
  /\ meta_validator (fst second) = non_empty
  /\ run (meta_validator (fst second)) "banana" = None
  /\ normalize "banana" ∉ ["fixedValue"; "zeroGradient"].
Proof.
  cbv zeta. repeat split; try (vm_compute; congruence).
  intros Hin. repeat (apply elem_of_cons in Hin as [Hin|Hin]; [discriminate Hin|]).
  by apply elem_of_nil in Hin.
Qed.

(** C10.  [refresh_entry_cache] stores a tuple built from [choose_validator]
    alone: the answer of [get_entry_enum_values] never enters it.  For a key
    whose value can be read and for which the engine lists allowed values,
    the stored label is the one [choose_validator] gives, which is never
    "enum"; the stored info lines are the engine's info lines and the
    boundary-condition lines, without the "Allowed values" line (no stored
    line starts with "Allowed values: " unless one of the engine's own info
    lines does); later resolves hit the cache and return this tuple; a
    resolve with an empty cache yields "enum" and the "Allowed values" line
    again. *)
Theorem refresh_entry_cache_ignores_enum_values eng (cache : Cache) full_key value :
  read_entry eng full_key = Some value ->
  get_entry_enum_values eng full_key <> [] ->
  let cache' := refresh_entry_cache eng cache full_key in
  let label := snd (choose_validator full_key value) in
  let fresh := fst (get_entry_metadata eng ∅ full_key) in
  (forall f, refresh_entry_cache (with_enum_values eng f) cache full_key = cache')
  /\ cache' !! full_key
     = Some (value, label, list_subkeys eng full_key,
             get_entry_comments eng full_key, info_with_bc eng full_key)
  /\ label <> "enum"
  /\ ((forall line, line ∈ get_entry_info eng full_key ->
                    String.prefix "Allowed values: " line = false) ->
      forall line, line ∈ info_with_bc eng full_key ->
                   String.prefix "Allowed values: " line = false)
  /\ get_entry_metadata eng cache' full_key
     = ((value, label, list_subkeys eng full_key,
         get_entry_comments eng full_key, info_with_bc eng full_key,
         fst (choose_validator full_key value)), cache')
  /\ meta_type_label fresh = "enum"
  /\ meta_info_lines fresh
     = (info_with_bc eng full_key
        ++ [allowed_values_line (get_entry_enum_values eng full_key)])%list.
Proof.
  intros Hread Henum cache' label fresh.
  assert (cache' !! full_key
          = Some (value, label, list_subkeys eng full_key,
                  get_entry_comments eng full_key, info_with_bc eng full_key))
    as Hstored.
  { subst cache'. unfold refresh_entry_cache. rewrite Hread.
    apply lookup_insert_eq. }
  split; [|split; [exact Hstored|split; [|split; [|split]]]].
  - intros f. subst cache'. unfold refresh_entry_cache. simpl.
    now rewrite Hread.
  - apply choose_validator_label_not_enum.
  - intros Heng line Hin. apply elem_of_app in Hin as [Hin|Hin]; [auto|].
    eapply prefix_BC_not_allowed, boundary_condition_info_prefix, Hin.
  - now apply get_entry_metadata_hit.
  - destruct (get_entry_metadata_miss_enum eng ∅ full_key) as (H1 & _ & H3 & _);
      [apply lookup_empty|exact Henum|]. split; assumption.
Qed.

Lemma refresh_entry_cache_ignores_enum_values_witness :
  refresh_entry_cache Samples.sample_engine ∅ "type" !! "type"
  = Some ("fixedValue", "text", [], [], [])
  /\ meta_type_label (fst (get_entry_metadata Samples.sample_engine ∅ "type"))
     = "enum".
Proof.
  pose proof (refresh_entry_cache_ignores_enum_values
                Samples.sample_engine ∅ "type" "fixedValue"
                eq_refl ltac:(discriminate)) as (_ & H2 & _ & _ & _ & H6 & _).
  split; [exact H2|exact H6].
Defined.


End EntryMetaFacts.

(* ===================================================================== *)
(** * Properties of browser.py *)
(* ===================================================================== *)

Module BrowserFacts.
Import PyStr Validation EntryMeta Browser.

Lemma pop_snoc {A} (l : list A) (x : A) : pop (l ++ [x]) = Some (l, x).
Proof.
  induction l as [|y l IH]; [reflexivity|].
  change ((y :: l) ++ [x])%list with (y :: (l ++ [x]))%list.
  cbn [pop]. rewrite IH. destruct (l ++ [x])%list eqn:E; [|reflexivity].
  now destruct l.
Qed.

Lemma index_in_range {A} (l : list A) (i : Z) :
  0 <= i < Z.of_nat (length l) -> exists x, PyStr.index l i = Some x.
Proof.
  intros Hi. unfold PyStr.index.
  rewrite (proj2 (Z.leb_le 0 i)), (proj2 (Z.ltb_lt i _)) by lia.
  cbn [andb]. apply lookup_lt_is_Some. lia.
Qed.

Lemma index_nil {A} (i : Z) : PyStr.index (@nil A) i = None.
Proof. unfold PyStr.index. repeat case_match; reflexivity. Qed.

Lemma index_first {A} (x : A) (l : list A) : PyStr.index (x :: l) 0 = Some x.
Proof.
  unfold PyStr.index.
  rewrite (proj2 (Z.ltb_lt 0 (Z.of_nat (length (x :: l)))))
    by (cbn [length]; lia).
  reflexivity.
Qed.

(** What [get_entry_metadata] returns depends on the cache at the key only. *)
Lemma get_entry_metadata_fst_ext eng (cache1 cache2 : Cache) k :
  cache1 !! k = cache2 !! k ->
  fst (get_entry_metadata eng cache1 k) = fst (get_entry_metadata eng cache2 k).
Proof.
  intros H. unfold get_entry_metadata. rewrite H.
  destruct (cache2 !! k) as [[[[[v l] sk] cm] il]|]; [done|].
  destruct (get_entry_enum_values eng k); done.
Qed.

(** The cache [get_entry_metadata] leaves: the same on a hit; on a miss the
    key is bound to a tuple with the value, sub-keys and comments returned. *)
Lemma get_entry_metadata_snd eng (cache : Cache) k :
  let m := fst (get_entry_metadata eng cache k) in
  match cache !! k with
  | Some _ => snd (get_entry_metadata eng cache k) = cache
  | None =>
      exists type_label info_lines,
        snd (get_entry_metadata eng cache k)
        = <[k := (meta_value m, type_label, meta_subkeys m, meta_comments m,
                  info_lines)]> cache
  end.
Proof.
  cbv zeta. unfold get_entry_metadata.
  destruct (cache !! k) as [[[[[v l] sk] cm] il]|]; [done|].
  destruct (get_entry_enum_values eng k); cbn [fst snd]; eauto.
Qed.

(** Resolving one key leaves the value and the comments every key resolves
    to as they were. *)
Lemma get_entry_metadata_stable eng (cache : Cache) k k2 :
  let cache' := snd (get_entry_metadata eng cache k) in
  meta_value (fst (get_entry_metadata eng cache' k2))
  = meta_value (fst (get_entry_metadata eng cache k2))
  /\ meta_comments (fst (get_entry_metadata eng cache' k2))
     = meta_comments (fst (get_entry_metadata eng cache k2)).
Proof.
  cbv zeta. pose proof (get_entry_metadata_snd eng cache k) as Hsnd.
  cbv zeta in Hsnd.
  destruct (cache !! k) eqn:Hk; [by rewrite Hsnd|].
  destruct Hsnd as (type_label & info_lines & ->).
  destruct (decide (k2 = k)) as [->|Hne].
  - erewrite EntryMetaFacts.get_entry_metadata_hit by apply lookup_insert_eq.
    done.
  - erewrite (get_entry_metadata_fst_ext eng (<[k:=_]> cache) cache k2);
      [done|by apply lookup_insert_ne].
Qed.

Lemma entry_matches_stable eng (cache : Cache) k keywords query idx :
  entry_matches eng (snd (get_entry_metadata eng cache k)) keywords query idx
  = entry_matches eng cache keywords query idx.
Proof.
  unfold entry_matches. destruct (PyStr.index keywords idx) as [key|]; [|done].
  destruct (get_entry_metadata_stable eng cache k key) as [-> ->]. done.
Qed.

(** The loop of [_search_entries] from turn [step] on: it ends without an
    [IndexError], on the first turn that matches. *)
Lemma search_steps_spec eng keywords current_index direction query :
  keywords <> [] ->
  forall todo step (cache0 cache : Cache),
    (forall idx, entry_matches eng cache keywords query idx
                 = entry_matches eng cache0 keywords query idx) ->
    exists result cache',
      search_steps eng keywords current_index direction (lower query)
                   todo step cache = Some (result, cache')
      /\ (forall idx, entry_matches eng cache' keywords query idx
                      = entry_matches eng cache0 keywords query idx)
      /\ match result with
         | Some idx =>
             exists s, step <= s < step + Z.of_nat todo
               /\ idx = scan_index (Z.of_nat (length keywords))
                                   current_index direction s
               /\ entry_matches eng cache0 keywords query idx = true
               /\ forall s', step <= s' < s ->
                    entry_matches eng cache0 keywords query
                      (scan_index (Z.of_nat (length keywords))
                                  current_index direction s') = false
         | None =>
             forall s, step <= s < step + Z.of_nat todo ->
               entry_matches eng cache0 keywords query
                 (scan_index (Z.of_nat (length keywords))
                             current_index direction s) = false
         end.
Proof.
  intros Hne. set (n := Z.of_nat (length keywords)).
  assert (0 < n) as Hn by (subst n; destruct keywords; [done|cbn [length]; lia]).
  induction todo as [|todo IH]; intros step cache0 cache Hsame.
  - exists None, cache. repeat split; [done|]. intros s Hs. lia.
  - cbn [search_steps]. fold n.
    set (idx := scan_index n current_index direction step).
    assert (0 <= idx < n) as Hidx by (apply Z.mod_pos_bound; lia).
    destruct (index_in_range keywords idx Hidx) as [key Hkey].
    rewrite Hkey.
    pose proof (Hsame idx) as Hhere. unfold entry_matches in Hhere at 1.
    rewrite Hkey in Hhere.
    pose proof (entry_matches_stable eng cache key keywords query) as Hstable.
    destruct (get_entry_metadata eng cache key) as [m cache1].
    cbn [fst snd] in Hhere, Hstable.
    destruct (str_in (lower query) (haystack key (meta_value m) (meta_comments m)))
      eqn:Hmatch.
    + exists (Some idx), cache1. split; [done|]. split.
      { intros i. now rewrite Hstable. }
      exists step. repeat split; [lia|lia|done|]. intros s' Hs'. lia.
    + destruct (IH (step + 1) cache0 cache1) as (result & cache' & Hrun & Hsame' & Hres).
      { intros i. now rewrite Hstable. }
      exists result, cache'. split; [exact Hrun|]. split; [exact Hsame'|].
      destruct result as [found|].
      * destruct Hres as (s & Hs & Hfound & Hm & Hfirst).
        exists s. repeat split; [lia|lia|done|done|].
        intros s' Hs'. destruct (decide (s' = step)) as [->|]; [done|].
        apply Hfirst. lia.
      * intros s Hs. destruct (decide (s = step)) as [->|]; [done|].
        apply Hres. lia.
Qed.

Lemma _search_entries_spec eng (cache : Cache) keywords current_index query direction :
  exists result cache',
    _search_entries eng cache keywords current_index query direction
    = Some (result, cache')
    /\ first_match eng cache keywords query current_index direction result.
Proof.
  destruct (decide (keywords = [])) as [->|Hne].
  { exists None, cache. split; [reflexivity|]. intros turn Hturn.
    cbn [length] in Hturn. lia. }
  destruct (search_steps_spec eng keywords current_index direction query Hne
              (length keywords) 1 cache cache ltac:(done))
    as (result & cache' & Hrun & _ & Hres).
  exists result, cache'. split.
  - destruct keywords; [done|exact Hrun].
  - unfold first_match. destruct result as [idx|].
    + destruct Hres as (s & Hs & Hfound & Hm & Hfirst).
      exists s. repeat split; [lia|lia|done|done|]. intros s' Hs'. apply Hfirst. lia.
    + intros s Hs. apply Hres. lia.
Qed.

(** The turn of the loop on l, e, Right or Enter. *)
Lemma step_enter eng st after_edit key :
  PyStr.index (keywords st) (index st) = Some key ->
  step eng st (KeyEnter after_edit)
  = let full_key := full_key_of (base_entry st) key in
    let resolved := get_entry_metadata eng (cache st) full_key in
    match meta_subkeys (fst resolved) with
    | _ :: _ =>
        Continue {| base_entry := Some full_key;
                    keywords := meta_subkeys (fst resolved);
                    index := 0;
                    stack := (stack st ++ [(base_entry st, keywords st, index st)])%list;
                    cache := snd resolved; shown := shown st |}
    | [] =>
        Continue {| base_entry := base_entry st; keywords := keywords st;
                    index := index st; stack := stack st;
                    cache := _entry_browser_inline_edit after_edit (snd resolved) full_key;
                    shown := shown st |}
    end.
Proof.
  intros Hkey. unfold step. rewrite Hkey. cbv zeta.
  destruct (get_entry_metadata eng (cache st) (full_key_of (base_entry st) key))
    as [[[[[[value type_label] subkeys] comments] info_lines] validator] cache1].
  cbn [fst snd meta_subkeys]. destruct subkeys; reflexivity.
Qed.

(** The turn of the loop on Left or a "back" key. *)
Lemma step_back eng st key :
  PyStr.index (keywords st) (index st) = Some key ->
  step eng st KeyBack
  = match pop (stack st) with
    | Some (rest, (b, ks, i)) =>
        Continue {| base_entry := b; keywords := ks; index := i; stack := rest;
                    cache := snd (get_entry_metadata eng (cache st)
                                    (full_key_of (base_entry st) key));
                    shown := shown st |}
    | None => Return
    end.
Proof.
  intros Hkey. unfold step. rewrite Hkey.
  destruct (get_entry_metadata eng (cache st) (full_key_of (base_entry st) key))
    as [[[[[[value type_label] subkeys] comments] info_lines] validator] cache1].
  reflexivity.
Qed.

Lemma pop_Some {A} (l rest : list A) (x : A) :
  pop l = Some (rest, x) -> l = (rest ++ [x])%list.
Proof.
  revert rest. induction l as [|y l IH]; intros rest; [discriminate|].
  cbn [pop]. destruct l as [|z l].
  - intros [= <- <-]. reflexivity.
  - destruct (pop (z :: l)) as [[t' y']|]; [|discriminate].
    intros [= <- <-]. now rewrite (IH t' eq_refl).
Qed.

Lemma find_index_lt x l i : find_index x l = Some i -> (i < length l)%nat.
Proof.
  revert i. induction l as [|y l IH]; intros i; [discriminate|].
  cbn [find_index length]. destruct (String.eqb y x).
  - intros [= <-]. lia.
  - destruct (find_index x l) as [j|]; [|discriminate].
    intros [= <-]. specialize (IH j eq_refl). lia.
Qed.

Lemma cursor_ok_index keywords i :
  cursor_ok keywords i -> exists key, PyStr.index keywords i = Some key.
Proof. apply index_in_range. Qed.

(** The loop never dies of an [IndexError]: a turn started in a well-formed
    state ends the browser or leaves a well-formed state. *)
Lemma step_safe eng st k :
  well_formed st ->
  match step eng st k with
  | Continue st' => well_formed st'
  | Return => True
  | Raise => False
  end.
Proof.
  intros [Hcur Hstack].
  destruct (cursor_ok_index _ _ Hcur) as [key Hkey].
  assert (keywords st <> []) as Hne.
  { intros E. rewrite E, index_nil in Hkey. discriminate. }
  pose proof Hcur as Hn. unfold cursor_ok in Hn.
  destruct k as [| | | | |after_edit|input].
  - unfold step. rewrite Hkey. destruct (get_entry_metadata _ _ _) as [[[[[[? ?] ?] ?] ?] ?] ?].
    split; [|exact Hstack]. unfold cursor_ok. cbn [keywords index].
    apply Z.mod_pos_bound. lia.
  - unfold step. rewrite Hkey. destruct (get_entry_metadata _ _ _) as [[[[[[? ?] ?] ?] ?] ?] ?].
    split; [|exact Hstack]. unfold cursor_ok. cbn [keywords index].
    apply Z.mod_pos_bound. lia.
  - unfold step. rewrite Hkey. destruct (get_entry_metadata _ _ _) as [[[[[[? ?] ?] ?] ?] ?] ?].
    split; [|exact Hstack]. unfold cursor_ok. cbn [keywords index]. lia.
  - unfold step. rewrite Hkey. destruct (get_entry_metadata _ _ _) as [[[[[[? ?] ?] ?] ?] ?] ?].
    split; [|exact Hstack]. unfold cursor_ok. cbn [keywords index]. lia.
  - rewrite (step_back eng st key Hkey).
    destruct (pop (stack st)) as [[rest [[b ks] i]]|] eqn:E; [|exact I].
    apply pop_Some in E. rewrite E in Hstack.
    apply Forall_app in Hstack as [Hrest Hframe].
    apply Forall_inv in Hframe. split; [exact Hframe|exact Hrest].
  - rewrite (step_enter eng st after_edit key Hkey). cbv zeta.
    destruct (meta_subkeys _) as [|sub subkeys] eqn:E.
    + split; [exact Hcur|exact Hstack].
    + split.
      * unfold cursor_ok. cbn [keywords index length]. lia.
      * cbn [stack]. apply Forall_app. split; [exact Hstack|].
        constructor; [exact Hcur|constructor].
  - unfold step. rewrite Hkey.
    destruct (get_entry_metadata _ _ _) as [[[[[[? ?] ?] ?] ?] ?] cache1].
    destruct input as [out|query]; cbn [_entry_browser_search].
    + split; [|exact Hstack]. cbn [keywords index].
      unfold _fzf_pick_entry_in_file.
      destruct (keywords st) as [|k0 ks] eqn:Ek; [done|].
      destruct out as [stdout|]; [|exact Hcur].
      destruct (strip stdout) as [|c sel]; [exact Hcur|].
      destruct (find_index _ _) as [i|] eqn:Ei; [|exact Hcur].
      apply find_index_lt in Ei. cbn [option_map]. unfold cursor_ok. lia.
    + destruct query as [|c query].
      { split; [exact Hcur|exact Hstack]. }
      destruct (_search_entries_spec eng cache1 (keywords st) (index st)
                  (String c query) 1) as (result & cache' & -> & Hfirst).
      destruct result as [idx|]; (split; [|exact Hstack]); [|exact Hcur].
      destruct Hfirst as (turn & _ & -> & _).
      unfold cursor_ok. cbn [keywords index].
      apply Z.mod_pos_bound. lia.
Qed.

(** C6.  From any state of the browser, whatever the depth of its stack: a
    descend into the sub-dictionary under the cursor pushes one frame, and
    the ascend that follows pops it and puts [base_entry], [keywords] and
    [index] (and the stack) back to what they were before the descend. *)
Theorem descend_then_ascend_restores eng eng' st after_edit key :
  PyStr.index (keywords st) (index st) = Some key ->
  meta_subkeys
    (fst (get_entry_metadata eng (cache st) (full_key_of (base_entry st) key)))
  <> [] ->
  exists st1 st2,
    step eng st (KeyEnter after_edit) = Continue st1
    /\ base_entry st1 = Some (full_key_of (base_entry st) key)
    /\ keywords st1
       = meta_subkeys
           (fst (get_entry_metadata eng (cache st)
                   (full_key_of (base_entry st) key)))
    /\ index st1 = 0
    /\ stack st1 = (stack st ++ [(base_entry st, keywords st, index st)])%list
    /\ step eng' st1 KeyBack = Continue st2
    /\ base_entry st2 = base_entry st
    /\ keywords st2 = keywords st
    /\ index st2 = index st
    /\ stack st2 = stack st.
Proof.
  intros Hkey Hsub.
  rewrite (step_enter eng st after_edit key Hkey). cbv zeta.
  set (subs := meta_subkeys _) in *.
  destruct subs as [|sub subkeys]; [done|].
  eexists; eexists. split; [reflexivity|].
  cbn [base_entry keywords index stack].
  erewrite step_back by apply index_first.
  cbn [stack]. rewrite pop_snoc. repeat split.
Qed.

Lemma descend_then_ascend_restores_witness :
  exists st1 st2,
    step Samples.sample_engine Samples.sample_state
         (KeyEnter Samples.sample_engine) = Continue st1
    /\ keywords st1 = ["nCorrectors"]
    /\ step Samples.sample_engine st1 KeyBack = Continue st2
    /\ (base_entry st2, keywords st2, index st2)
       = (None, ["type"; "PIMPLE"; "solver"], 1).
Proof.
  destruct (descend_then_ascend_restores
              Samples.sample_engine Samples.sample_engine Samples.sample_state
              Samples.sample_engine "PIMPLE" eq_refl ltac:(discriminate))
    as (st1 & st2 & H1 & _ & H3 & _ & _ & H6 & H7 & H8 & H9 & _).
  exists st1, st2. split; [exact H1|]. split; [exact H3|]. split; [exact H6|].
  now rewrite H7, H8, H9.
Defined.

(** What the scan does with the match test of the code.  For a sibling list
    of length [n], any current index, any query and any direction,
    [_search_entries] ends without an exception and returns the first index,
    in the cyclic scan [(current_index + direction * step) mod n] for
    [step = 1 .. n], that [entry_matches] accepts; it returns [None] when no
    turn of the scan is accepted.  In the browser (typed, non-empty query;
    the scan goes forward): on a match the cursor moves to that index and
    nothing is shown; without a match the message
    "No matches for '<query>'." is shown and [index] (as [base_entry],
    [keywords] and [stack]) stays as it was. *)
Theorem search_returns_first_match_or_reports_none :
  (forall eng (cache : Cache) keywords current_index query direction,
      exists result cache',
        _search_entries eng cache keywords current_index query direction
        = Some (result, cache')
        /\ first_match eng cache keywords query current_index direction result)
  /\ (forall eng st key query,
         PyStr.index (keywords st) (index st) = Some key ->
         query <> "" ->
         let cache1 :=
           snd (get_entry_metadata eng (cache st)
                  (full_key_of (base_entry st) key)) in
         exists result st',
           first_match eng cache1 (keywords st) query (index st) 1 result
           /\ step eng st (KeySearch (Typed query)) = Continue st'
           /\ base_entry st' = base_entry st
           /\ keywords st' = keywords st
           /\ stack st' = stack st
           /\ match result with
              | Some idx => index st' = idx /\ shown st' = shown st
              | None =>
                  index st' = index st
                  /\ shown st'
                     = (shown st
                        ++ [("No matches for '" ++ query ++ "'.")%string])%list
              end).
Proof.
  split; [apply _search_entries_spec|].
  intros eng st key query Hkey Hquery cache1.
  destruct (_search_entries_spec eng cache1 (keywords st) (index st) query 1)
    as (result & cache' & Hrun & Hfirst).
  unfold step. rewrite Hkey. subst cache1.
  destruct (get_entry_metadata eng (cache st) (full_key_of (base_entry st) key))
    as [[[[[[value type_label] subkeys] comments] info_lines] validator] cache1].
  cbn [snd] in Hrun, Hfirst. unfold _entry_browser_search.
  destruct query as [|c query]; [done|]. rewrite Hrun.
  exists result. destruct result as [idx|]; eexists;
    (split; [exact Hfirst|]); repeat split.
  cbn [shown]. now rewrite app_nil_r.
Qed.

Lemma search_returns_first_match_or_reports_none_witness :
  (exists cache',
      _search_entries Samples.sample_engine ∅ ["type"; "PIMPLE"; "solver"]
                      1 "LINEAR" 1 = Some (Some 2, cache'))
  /\ (exists st',
         step Samples.sample_engine Samples.sample_state
              (KeySearch (Typed "nothing")) = Continue st'
         /\ index st' = 1
         /\ shown st' = ["No matches for 'nothing'."]).
Proof.
  destruct search_returns_first_match_or_reports_none as [HA HB]. split.
  - destruct (HA Samples.sample_engine ∅ ["type"; "PIMPLE"; "solver"]
                 1 "LINEAR" 1)
      as (result & cache' & Hrun & _).
    exists cache'. rewrite Hrun.
    assert (result = Some 2) as ->; [|reflexivity].
    vm_compute in Hrun. congruence.
  - destruct (HB Samples.sample_engine Samples.sample_state "PIMPLE" "nothing"
                 eq_refl ltac:(discriminate))
      as (result & st' & _ & Hstep & _ & _ & _ & Hres).
    exists st'. split; [exact Hstep|].
    vm_compute in Hstep. injection Hstep as <-. split; reflexivity.
Defined.

(** C7, at a failing input.  At the top level the match test of the code
    is the one of the claim, and a search does find an entry by its key
    name, by its value and by its comments, in any case.  Below the top
    level it is not: in [PIMPLE], whose entry [nCorrectors] the browser
    resolves and shows with the value "2", a search for "2" from the first
    sibling ends with "No matches for '2'." and the cursor where it was,
    although the claim's scan meets a match at index 1; a search for the
    comment of [nOuterCorrectors] fails in the same way; and a search for
    "error" moves the cursor to index 1, whose key name, value and comments
    hold no "error": [_search_entries] resolves the bare name
    [nCorrectors], which the file does not have at the top level, and
    searches the placeholder "<error reading value>". *)
Theorem search_misses_values_below_top_level :
  let eng := Samples.pimple_engine in
  (forall e (cache : Cache) keywords query idx,
      entry_matches e cache keywords query idx
      = sibling_matches e cache None keywords query idx)
  /\ (forall query expected,
         In (query, expected) [("PIMPLE", 1); ("pcg", 2); ("LINEAR", 2)] ->
         exists st',
           step Samples.sample_engine Samples.sample_state
                (KeySearch (Typed query)) = Continue st'
           /\ index st' = expected /\ shown st' = [])
  /\ exists nested missed_value missed_comment wrong_hit,
       step eng Samples.pimple_state (KeyEnter eng) = Continue nested
       /\ base_entry nested = Some "PIMPLE"
       /\ keywords nested
          = ["momentumPredictor"; "nCorrectors"; "nOuterCorrectors"]
       /\ index nested = 0
       /\ meta_value (fst (get_entry_metadata eng (cache nested)
                             "PIMPLE.nCorrectors")) = "2"
       /\ sibling_matches eng (cache nested) (base_entry nested)
                          (keywords nested) "2" 1 = true
       /\ step eng nested (KeySearch (Typed "2")) = Continue missed_value
       /\ index missed_value = 0
       /\ shown missed_value = ["No matches for '2'."]
       /\ sibling_matches eng (cache nested) (base_entry nested)
                          (keywords nested) "outer loops" 2 = true
       /\ step eng nested (KeySearch (Typed "outer loops"))
          = Continue missed_comment
       /\ index missed_comment = 0
       /\ shown missed_comment = ["No matches for 'outer loops'."]
       /\ (forall idx, sibling_matches eng (cache nested) (base_entry nested)
                                       (keywords nested) "error" idx = false)
       /\ step eng nested (KeySearch (Typed "error")) = Continue wrong_hit
       /\ index wrong_hit = 1
       /\ shown wrong_hit = [].
Proof.
  cbv zeta. split; [reflexivity|]. split.
  - intros query expected Hin. cbn [In] in Hin.
    repeat (destruct Hin as [[= <- <-]|Hin];
            [eexists; split; [vm_compute; reflexivity|split; reflexivity]|]).
    destruct Hin.
  - do 4 eexists.
    split; [vm_compute; reflexivity|].
    do 8 (split; [vm_compute; reflexivity|]).
    do 4 (split; [vm_compute; reflexivity|]).
    split.
    { intros idx. unfold sibling_matches. cbn [keywords base_entry].
      unfold PyStr.index. cbn [length].
      destruct ((0 <=? idx) && (idx <? Z.of_nat 3)) eqn:Hin.
      - apply andb_prop in Hin as [H0 H3].
        apply Z.leb_le in H0. apply Z.ltb_lt in H3.
        assert (idx = 0 \/ idx = 1 \/ idx = 2) as [->|[->| ->]] by lia;
          vm_compute; reflexivity.
      - destruct ((- Z.of_nat 3 <=? idx) && (idx <? 0)) eqn:Hneg;
          [|reflexivity].
        apply andb_prop in Hneg as [H0 H3].
        apply Z.leb_le in H0. apply Z.ltb_lt in H3.
        assert (idx = -3 \/ idx = -2 \/ idx = -1) as [->|[->| ->]] by lia;
          vm_compute; reflexivity. }
    split; [vm_compute; reflexivity|]. split; reflexivity.
Qed.

End BrowserFacts.

(* ===================================================================== *)
(** * Properties of the background check of app.py *)
(* ===================================================================== *)

Module AppFacts.
Import PyStr App.

Lemma last_snoc_default {A} (l : list A) (x d : A) : List.last (l ++ [x]) d = x.
Proof. apply List.last_last. Qed.

Lemma last_cons {A} (l : list A) (a d : A) :
  List.last (a :: l) d = List.last l a.
Proof.
  revert a d. induction l as [|b l IH]; intros a d; [reflexivity|].
  change (List.last (a :: b :: l) d) with (List.last (b :: l) d).
  now rewrite (IH b d), (IH b a).
Qed.

Lemma final_eq sections run st :
  final sections run st
  = finish (results_of (ending run)) (collected sections run st).
Proof.
  unfold final, worker, collected.
  set (st0 := begin _ st). set (mid := run_calls _ st0).
  change (st0 :: mid ++ [?x])%list with ((st0 :: mid) ++ [x])%list.
  apply last_snoc_default.
Qed.

Lemma keeps_entries_same_results a b :
  check_results a = check_results b -> keeps_entries a b.
Proof. intros E f r. unfold stored. now rewrite E. Qed.

Lemma entries_stable_snoc l d x :
  entries_stable (d :: l) ->
  keeps_entries (List.last l d) x ->
  entries_stable (d :: l ++ [x]).
Proof.
  revert d. induction l as [|a l IH]; intros d Hst Hlast.
  - cbn in *. auto.
  - destruct Hst as [Hda Hrest].
    change (entries_stable (d :: a :: (l ++ [x]))). split; [exact Hda|].
    apply IH; [exact Hrest|]. now rewrite <- (last_cons l a d).
Qed.

Lemma entries_stable_last l d x :
  entries_stable (d :: l ++ [x]) -> keeps_entries (List.last l d) x.
Proof.
  revert d. induction l as [|a l IH]; intros d Hst.
  - cbn in *. tauto.
  - rewrite last_cons. apply IH.
    change (entries_stable (d :: a :: (l ++ [x]))) in Hst. apply Hst.
Qed.

(** C1, as amended.  When [verify_case] raises, whatever callbacks it had
    called before (whatever prefix of the files had been checked): the run
    ends with [check_in_progress] false and with an empty results map; the
    counters are the ones the callbacks left. *)
Theorem worker_abort_clears_results sections cs st :
  let run := {| calls := cs; ending := Raised |} in
  check_in_progress (final sections run st) = false
  /\ check_results (final sections run st) = Some ∅
  /\ check_done (final sections run st)
     = check_done (collected sections run st)
  /\ check_current (final sections run st)
     = check_current (collected sections run st).
Proof. cbv zeta. rewrite final_eq. repeat split. Qed.

(** C1, as stated, fails: the first file of the case is checked, launching
    the check of the second raises; the callbacks have collected the result
    of the first file, and the run ends with a results map that is not
    what was collected. *)
Lemma worker_abort_drops_partial_results :
  let sections := Samples.sample_sections in
  let run := verify_case Samples.failing_check (case_files sections) ∅ in
  ending run = Raised
  /\ stored (collected sections run Samples.idle) "system/controlDict"
     = Some (stored_result [] [])
  /\ ~ partial_results_kept sections run Samples.idle.
Proof.
  cbv zeta. split; [reflexivity|]. split; [reflexivity|].
  intros [_ H].
  apply (f_equal (fun o => match o with
                           | Some m => m !! "system/controlDict"
                           | None => None
                           end)) in H.
  vm_compute in H. discriminate H.
Qed.

Lemma stored_result_callback path result st f :
  stored (result_callback path result st) f
  = if decide (path = f) then Some result
    else match check_results st with
         | Some m => m !! f
         | None => None
         end.
Proof.
  unfold stored, result_callback. cbn [check_results].
  rewrite lookup_insert. destruct (check_results st); case_decide; try done.
Qed.

(** A sequence of callback calls that reports terminal results, each path
    once and none that the state holds already: results are only added,
    every state on the way holds terminal results only, and the last state
    holds the dictionary made of the results reported. *)
Lemma run_calls_trace :
  forall cs (acc : Results) s,
    check_results s = Some acc ->
    NoDup (result_paths cs) ->
    (forall f, f ∈ result_paths cs -> acc !! f = None) ->
    all_terminal s ->
    reports_terminal cs ->
    entries_stable (s :: run_calls cs s)
    /\ Forall all_terminal (run_calls cs s)
    /\ check_results (List.last (run_calls cs s) s)
       = Some (results_built cs acc).
Proof.
  induction cs as [|c cs IH]; intros acc s Hs Hnd Hfresh Hterm Hrep.
  - cbn. repeat split; [constructor|exact Hs].
  - assert (reports_terminal cs) as Hrep'.
    { intros p r Hin. apply (Hrep p r). by right. }
    destruct c as [path|path result]; cbn [run_calls on_call result_paths results_built] in *.
    + set (s1 := progress_callback path s).
      destruct (IH acc s1) as (Hst & Hall & Hlast); try done.
      split; [|split].
      * split; [|exact Hst]. apply keeps_entries_same_results. reflexivity.
      * constructor; [|exact Hall]. exact Hterm.
      * now rewrite last_cons.
    + set (s1 := result_callback path result s).
      apply NoDup_cons in Hnd as [Hpath Hnd].
      assert (check_results s1 = Some (<[path:=result]> acc)) as Hs1.
      { subst s1. unfold result_callback. cbn [check_results]. now rewrite Hs. }
      assert (keeps_entries s s1) as H01.
      { intros g r Hg. subst s1. rewrite stored_result_callback.
        unfold stored in Hg. rewrite Hs in Hg |- *.
        case_decide as E; [|exact Hg]. subst g.
        rewrite (Hfresh path) in Hg by (left). discriminate. }
      assert (all_terminal s1) as Ht1.
      { intros g r. subst s1. rewrite stored_result_callback.
        case_decide as E; [|apply Hterm].
        intros [= <-]. apply (Hrep path result). by left. }
      destruct (IH (<[path:=result]> acc) s1) as (Hst & Hall & Hlast); try done.
      { intros g Hg. rewrite lookup_insert_ne; [apply Hfresh; by right|].
        intros ->. contradiction. }
      split; [|split].
      * split; [exact H01|exact Hst].
      * constructor; [exact Ht1|exact Hall].
      * now rewrite last_cons.
Qed.

(** The modelled [verify_case] keeps the contract that [results_only_grow]
    asks of it: over pairwise distinct files it reports each path once, the
    results it reports are terminal, it returns the dictionary made of them,
    and it raises only on a process-level failure. *)
Lemma verify_case_contract check :
  forall files (acc : Results),
    NoDup files ->
    let run := verify_case check files acc in
    NoDup (result_paths (calls run))
    /\ (forall f, f ∈ result_paths (calls run) -> f ∈ files)
    /\ reports_terminal (calls run)
    /\ (forall m, ending run = Returned m -> m = results_built (calls run) acc)
    /\ ((forall f, f ∈ files -> check f <> ProcessError) ->
        ending run <> Raised).
Proof.
  induction files as [|f rest IH]; intros acc Hnd.
  - cbn. repeat split; [constructor| | |congruence|discriminate].
    + intros f Hf. by apply elem_of_nil in Hf.
    + intros p r Hin. by apply elem_of_nil in Hin.
  - apply NoDup_cons in Hnd as [Hf Hnd].
    assert (forall result, checked result = true ->
              let rest_run := verify_case check rest (<[f:=result]> acc) in
              let run := {| calls := Result f result :: Progress f :: calls rest_run;
                            ending := ending rest_run |} in
              NoDup (result_paths (calls run))
              /\ (forall g, g ∈ result_paths (calls run) -> g ∈ f :: rest)
              /\ reports_terminal (calls run)
              /\ (forall m, ending run = Returned m ->
                            m = results_built (calls run) acc)
              /\ ((forall g, g ∈ f :: rest -> check g <> ProcessError) ->
                  ending run <> Raised)) as Hstep.
    { intros result Hres. cbv zeta.
      cbn [calls ending result_paths results_built].
      destruct (IH (<[f:=result]> acc) Hnd) as (H1 & H2 & H3 & H4 & H5).
      split; [|split; [|split; [|split]]].
      - apply NoDup_cons. split; [|exact H1]. intros Hin. apply Hf, H2, Hin.
      - intros g Hg. apply elem_of_cons in Hg as [->|Hg]; [by left|].
        right. by apply H2.
      - intros p r Hin. apply elem_of_cons in Hin as [[= -> ->]|Hin]; [done|].
        apply elem_of_cons in Hin as [Hin|Hin]; [discriminate|].
        by apply (H3 p r).
      - exact H4.
      - intros Hok. apply H5. intros g Hg. apply Hok. by right. }
    cbn [verify_case]. destruct (check f) eqn:Hc.
    + apply Hstep. reflexivity.
    + apply Hstep. reflexivity.
    + cbn. repeat split; [constructor| | |discriminate|].
      * intros g Hg. by apply elem_of_nil in Hg.
      * intros p r Hin. by apply elem_of_nil in Hin.
      * intros Hok _. apply (Hok f); [by left|exact Hc].
Qed.

(** The modelled [verify_case] stops at the first file whose check fails at
    process level: it has reported the files before it, and raises. *)
Lemma verify_case_stops_at_failure check checked_files f rest :
  (forall g, g ∈ checked_files -> check g <> ProcessError) ->
  check f = ProcessError ->
  forall acc : Results,
    let run := verify_case check (checked_files ++ f :: rest) acc in
    ending run = Raised /\ result_paths (calls run) = checked_files.
Proof.
  intros Hok Hf.
  induction checked_files as [|g gs IH]; intros acc.
  - cbn. rewrite Hf. split; reflexivity.
  - assert (forall h, h ∈ gs -> check h <> ProcessError) as Hok'.
    { intros h Hh. apply Hok. by right. }
    cbn [app verify_case].
    destruct (check g) as [errs warns|msg|] eqn:Hg.
    + cbn [calls ending result_paths].
      destruct (IH Hok' (<[g:=stored_result errs warns]> acc)) as [-> ->].
      split; reflexivity.
    + cbn [calls ending result_paths].
      destruct (IH Hok' (<[g:=stored_result [msg] []]> acc)) as [-> ->].
      split; reflexivity.
    + destruct (Hok g ltac:(by left) Hg).
Qed.

(** C2, as amended.  In a run in which [verify_case] reports a result for
    each path once, reports terminal results only ([checked] is true) and,
    when it returns, returns the dictionary made of the results it
    reported: every result stored at any moment of the run is terminal; from
    the start of the run to the end of the last callback no stored result is
    removed or replaced; and when [verify_case] does not raise, the same
    holds for the step that ends the run. *)
Theorem results_only_grow sections run st :
  NoDup (result_paths (calls run)) ->
  reports_terminal (calls run) ->
  (forall m, ending run = Returned m -> m = results_built (calls run) ∅) ->
  let st0 := begin (total_files sections) st in
  (forall s, s ∈ worker sections run st -> all_terminal s)
  /\ entries_stable (st0 :: run_calls (calls run) st0)
  /\ (ending run <> Raised -> entries_stable (worker sections run st)).
Proof.
  intros Hnd Hrep Hret st0.
  assert (all_terminal st0) as Ht0.
  { intros f r. unfold stored. cbn [st0 begin check_results].
    rewrite lookup_empty. discriminate. }
  destruct (run_calls_trace (calls run) ∅ st0)
    as (Hst & Hall & Hlast); [reflexivity|exact Hnd| |exact Ht0|exact Hrep|].
  { intros f _. apply lookup_empty. }
  assert (all_terminal (List.last (run_calls (calls run) st0) st0)) as Htlast.
  { destruct (run_calls (calls run) st0) as [|a l] eqn:E; [exact Ht0|].
    rewrite Forall_forall in Hall. apply Hall.
    destruct (@exists_last _ (a :: l) ltac:(discriminate)) as (l' & x & ->).
    rewrite List.last_last. apply elem_of_app. right. by left. }
  split; [|split; [exact Hst|]].
  - intros s Hin. unfold worker in Hin. fold st0 in Hin.
    apply elem_of_cons in Hin as [->|Hin]; [exact Ht0|].
    apply elem_of_app in Hin as [Hin|Hin].
    + rewrite Forall_forall in Hall. by apply Hall.
    + apply list_elem_of_singleton in Hin as ->.
      intros f r. unfold stored, finish. cbn [check_results].
      destruct (ending run) as [m|] eqn:E; cbn [results_of].
      * rewrite (Hret m eq_refl). intros Hf. apply (Htlast f r).
        unfold stored. now rewrite Hlast.
      * rewrite lookup_empty. discriminate.
  - intros Hok. unfold worker. fold st0.
    apply entries_stable_snoc; [exact Hst|].
    destruct (ending run) as [m|] eqn:E; [|done].
    apply keeps_entries_same_results. cbn [results_of finish check_results].
    now rewrite (Hret m eq_refl).
Qed.

Lemma results_only_grow_witness :
  entries_stable
    (worker Samples.sample_sections
       (verify_case Samples.sample_check
          (case_files Samples.sample_sections) ∅) Samples.idle).
Proof.
  destruct (verify_case_contract Samples.sample_check
              (case_files Samples.sample_sections) ∅)
    as (Hnd & _ & Hrep & Hret & _).
  { refine (bool_decide_unpack _ _). vm_compute. exact I. }
  apply (results_only_grow Samples.sample_sections _ Samples.idle Hnd Hrep Hret).
  vm_compute. discriminate.
Defined.

(** C2, as stated, fails: the first file is checked and its result stored,
    launching the check of the second raises, and the step that ends the
    run removes the stored result. *)
Lemma worker_abort_removes_stored_result :
  ~ entries_stable
      (worker Samples.sample_sections
         (verify_case Samples.failing_check
            (case_files Samples.sample_sections) ∅) Samples.idle).
Proof.
  intros H. apply entries_stable_last in H.
  specialize (H "system/controlDict" (stored_result [] []) eq_refl).
  vm_compute in H. discriminate H.
Qed.

Lemma results_or_empty_lookup st f : results_or_empty st !! f = stored st f.
Proof.
  unfold results_or_empty, stored.
  destruct (check_results st); [reflexivity|apply lookup_empty].
Qed.

(** The loop of [_check_labels] appends one label and one result per file. *)
Lemma check_labels_loop_eq relative_to case_path (results : Results) files :
  forall labels checks,
    check_labels_loop relative_to case_path results files labels checks
    = ((labels
        ++ map (fun file_path =>
                  relative_to file_path case_path ++ ": "
                  ++ status_of (results !! file_path))%string files)%list,
       (checks ++ map (fun file_path => results !! file_path) files)%list).
Proof.
  induction files as [|f rest IH]; intros labels checks.
  - cbn. now rewrite !app_nil_r.
  - cbn [check_labels_loop map]. rewrite IH.
    now rewrite <- !app_assoc.
Qed.

(** C9.  The label of each file is its path relative to the case, ": ", and
    a status that is: "Not checked" when the file has no stored result or a
    result with [checked] false; "ERROR (n)", [n] being the number of
    errors, when [checked] is true and there are errors; otherwise
    "Warn (n)", [n] being the number of warnings, when there are warnings;
    otherwise "OK". *)
Theorem check_labels_status relative_to case_path files st i file_path :
  files !! i = Some file_path ->
  exists status,
    fst (_check_labels relative_to case_path files st) !! i
    = Some (relative_to file_path case_path ++ ": " ++ status)
    /\ snd (_check_labels relative_to case_path files st) !! i
       = Some (stored st file_path)
    /\ (stored st file_path = None -> status = "Not checked")
    /\ (forall c, stored st file_path = Some c -> checked c = false ->
                  status = "Not checked")
    /\ (forall c, stored st file_path = Some c -> checked c = true ->
                  errors c <> [] ->
                  status = "ERROR (" ++ of_nat (length (errors c)) ++ ")")
    /\ (forall c, stored st file_path = Some c -> checked c = true ->
                  errors c = [] -> warnings c <> [] ->
                  status = "Warn (" ++ of_nat (length (warnings c)) ++ ")")
    /\ (forall c, stored st file_path = Some c -> checked c = true ->
                  errors c = [] -> warnings c = [] ->
                  status = "OK").
Proof.
  intros Hi. exists (status_of (stored st file_path)).
  unfold _check_labels. rewrite check_labels_loop_eq. cbn [fst snd app].
  split; [|split].
  - change (map ?f files) with (f <$> files).
    rewrite list_lookup_fmap, Hi. cbn. now rewrite results_or_empty_lookup.
  - change (map ?f files) with (f <$> files).
    rewrite list_lookup_fmap, Hi. cbn. now rewrite results_or_empty_lookup.
  - repeat split.
    + intros ->. reflexivity.
    + intros c -> Hc. cbn. now rewrite Hc.
    + intros c -> Hc He. cbn. rewrite Hc. cbn.
      destruct (errors c); [contradiction|reflexivity].
    + intros c -> Hc He Hw. cbn. rewrite Hc, He. cbn.
      destruct (warnings c); [contradiction|reflexivity].
    + intros c -> Hc He Hw. cbn. now rewrite Hc, He, Hw.
Qed.

Lemma check_labels_status_witness :
  fst (_check_labels Samples.sample_relative_to "case"
         (case_files Samples.sample_sections)
         (final Samples.sample_sections
            (verify_case Samples.sample_check
               (case_files Samples.sample_sections) ∅) Samples.idle))
  !! 0%nat
  = Some "system/controlDict: ERROR (2)".
Proof.
  destruct (check_labels_status Samples.sample_relative_to "case"
              (case_files Samples.sample_sections)
              (final Samples.sample_sections
                 (verify_case Samples.sample_check
                    (case_files Samples.sample_sections) ∅) Samples.idle)
              0%nat "system/controlDict" eq_refl)
    as (status & Hlabel & _ & _ & _ & Herr & _).
  rewrite Hlabel.
  rewrite (Herr (stored_result ["e1"; "e2"] []) eq_refl eq_refl
             ltac:(discriminate)).
  reflexivity.
Defined.

End AppFacts.

(* ===================================================================== *)
(** * More properties of entry_meta.py *)
(* ===================================================================== *)

Module EntryMetaMore.
Import PyStr PyNum Validation EntryMeta.

Lemma key_rule_pairs key :
  In (key_rule key)
     [(bool_flag, "boolean-like"); (as_int, "integer"); (as_float, "float");
      (non_empty, "text")].
Proof.
  unfold key_rule, _guess_validator.
  repeat match goal with |- context [if ?b then _ else _] => destruct b end;
    cbn; auto.
Qed.

(** X1.  Whatever the key and the value, [choose_validator] returns one of
    five pairs: the label always names the validator it comes with (vector,
    integer, float, boolean-like, text), and is never "enum". *)
Theorem choose_validator_label_names_validator key value :
  In (choose_validator key value)
     [(vector_values, "vector"); (as_int, "integer"); (as_float, "float");
      (bool_flag, "boolean-like"); (non_empty, "text")].
Proof.
  destruct (EntryMetaFacts.choose_validator_cases key value)
    as [-> | [-> | [-> | ->]]]; cbn; auto.
  pose proof (key_rule_pairs key) as H. cbn in H. tauto.
Qed.

(** X2.  Whatever the key, a value whose last whitespace token (semicolons
    read as spaces) is refused by [int] and accepted by [float] is
    classified float, unless the value passes the vector test, which comes
    first. *)
Theorem choose_validator_last_token_float key value last :
  last_tok (split (replace_char ";" " " value)) = Some last ->
  int_ok last = false ->
  float_ok last = true ->
  choose_validator key value
  = if looks_like_vector value then (vector_values, "vector")
    else (as_float, "float").
Proof.
  intros Hlast Hint Hfloat. unfold choose_validator.
  destruct (looks_like_vector value); [reflexivity|].
  rewrite Hlast. unfold scalar_rule. now rewrite Hint, Hfloat.
Qed.

Lemma choose_validator_last_token_float_witness :
  choose_validator "nIterations" "uniform 1e-5;" = (as_float, "float").
Proof.
  rewrite (choose_validator_last_token_float "nIterations" "uniform 1e-5;" "1e-5");
    reflexivity.
Defined.

(** X3.  The key heuristic never yields float or free text for a key that
    holds the letter n (in either case): such a key is boolean-like when it
    holds one of on, off, switch, enable, disable, and integer otherwise,
    whatever else it holds (tol, time, coeff, ...). *)
Theorem guess_validator_letter_n key :
  str_in "n" (lower key) = true ->
  _guess_validator key = bool_flag \/ _guess_validator key = as_int.
Proof.
  intros Hn. unfold _guess_validator.
  destruct (existsb _ ["on"; "off"; "switch"; "enable"; "disable"]); [auto|].
  right. cbn [existsb]. rewrite Hn. now rewrite !orb_true_r.
Qed.

Lemma guess_validator_letter_n_witness :
  _guess_validator "tolerance" = as_int.
Proof.
  destruct (guess_validator_letter_n "tolerance" eq_refl) as [H|H];
    [discriminate H|exact H].
Defined.

(** After a resolve the key is bound to the five fields returned. *)
Lemma resolve_binds eng (cache : Cache) full_key :
  let m := fst (get_entry_metadata eng cache full_key) in
  snd (get_entry_metadata eng cache full_key) !! full_key
  = Some (meta_value m, meta_type_label m, meta_subkeys m, meta_comments m,
          meta_info_lines m).
Proof.
  cbv zeta. unfold get_entry_metadata.
  destruct (cache !! full_key) as [[[[[v l] sk] cm] il]|] eqn:Hk; [exact Hk|].
  destruct (get_entry_enum_values eng full_key); cbn; apply lookup_insert_eq.
Qed.

Lemma resolve_other eng (cache : Cache) full_key k :
  k <> full_key ->
  snd (get_entry_metadata eng cache full_key) !! k = cache !! k.
Proof.
  intros Hk. unfold get_entry_metadata.
  destruct (cache !! full_key) as [[[[[v l] sk] cm] il]|]; [reflexivity|].
  destruct (get_entry_enum_values eng full_key); cbn;
    now apply lookup_insert_ne.
Qed.

(** A resolve changes no binding of the cache. *)
Lemma resolve_keeps eng (cache : Cache) full_key k e :
  cache !! k = Some e ->
  snd (get_entry_metadata eng cache full_key) !! k = Some e.
Proof.
  intros Hk. destruct (decide (k = full_key)) as [->|Hne].
  - unfold get_entry_metadata. rewrite Hk.
    destruct e as [[[[v l] sk] cm] il]. exact Hk.
  - now rewrite resolve_other.
Qed.

Lemma resolve_again eng eng' (cache : Cache) full_key :
  let m := fst (get_entry_metadata eng cache full_key) in
  let cache' := snd (get_entry_metadata eng cache full_key) in
  get_entry_metadata eng' cache' full_key
  = ((meta_value m, meta_type_label m, meta_subkeys m, meta_comments m,
      meta_info_lines m, fst (choose_validator full_key (meta_value m))),
     cache').
Proof.
  cbv zeta. apply EntryMetaFacts.get_entry_metadata_hit, resolve_binds.
Qed.

(** X4.  What a resolve does to the cache: afterwards the key is bound to
    exactly the five fields returned; no binding that was there is changed
    (the key itself included) and no other key is added; and a second
    resolve, whatever the file has become, returns the same five fields and
    leaves the cache as it is. *)
Theorem get_entry_metadata_cache_effect eng (cache : Cache) full_key :
  let m := fst (get_entry_metadata eng cache full_key) in
  let cache' := snd (get_entry_metadata eng cache full_key) in
  cache' !! full_key
  = Some (meta_value m, meta_type_label m, meta_subkeys m, meta_comments m,
          meta_info_lines m)
  /\ (forall k e, cache !! k = Some e -> cache' !! k = Some e)
  /\ (forall k, k <> full_key -> cache' !! k = cache !! k)
  /\ forall eng',
       let again := get_entry_metadata eng' cache' full_key in
       snd again = cache'
       /\ meta_value (fst again) = meta_value m
       /\ meta_type_label (fst again) = meta_type_label m
       /\ meta_subkeys (fst again) = meta_subkeys m
       /\ meta_comments (fst again) = meta_comments m
       /\ meta_info_lines (fst again) = meta_info_lines m.
Proof.
  cbv zeta. split; [apply resolve_binds|].
  split; [intros k e; apply resolve_keeps|].
  split; [intros k; apply resolve_other|].
  intros eng'. rewrite resolve_again. repeat split.
Qed.

(** X5.  A value that could not be read is cached: when the first resolve
    of a key meets a read error, every later resolve of that key returns the
    placeholder "<error reading value>", whatever the file has become; a
    refresh of the key at a moment when it can be read puts the value read
    in its place. *)
Theorem read_failure_is_cached eng (cache : Cache) full_key :
  cache !! full_key = None ->
  read_entry eng full_key = None ->
  let cache' := snd (get_entry_metadata eng cache full_key) in
  meta_value (fst (get_entry_metadata eng cache full_key))
  = "<error reading value>"
  /\ (forall eng',
        meta_value (fst (get_entry_metadata eng' cache' full_key))
        = "<error reading value>")
  /\ (forall eng' eng'' value,
        read_entry eng' full_key = Some value ->
        meta_value (fst (get_entry_metadata eng''
                           (refresh_entry_cache eng' cache' full_key) full_key))
        = value).
Proof.
  intros Hmiss Hread. cbv zeta.
  assert (meta_value (fst (get_entry_metadata eng cache full_key))
          = "<error reading value>") as Hfirst.
  { unfold get_entry_metadata. rewrite Hmiss, Hread.
    destruct (get_entry_enum_values eng full_key); reflexivity. }
  split; [exact Hfirst|]. split.
  - intros eng'.
    rewrite resolve_again. exact Hfirst.
  - intros eng' eng'' value Hv.
    erewrite EntryMetaFacts.get_entry_metadata_hit; [reflexivity|].
    unfold refresh_entry_cache. rewrite Hv. apply lookup_insert_eq.
Qed.

Lemma read_failure_is_cached_witness :
  meta_value
    (fst (get_entry_metadata Samples.sample_engine
            (snd (get_entry_metadata Samples.sample_engine ∅ "missing"))
            "missing"))
  = "<error reading value>".
Proof.
  destruct (read_failure_is_cached Samples.sample_engine ∅ "missing"
              (lookup_empty _) eq_refl) as (_ & H & _).
  apply H.
Defined.

Lemma find_index_None x l : find_index x l = None <-> ~ In x l.
Proof.
  induction l as [|y l IH]; cbn [find_index In]; [tauto|].
  destruct (String.eqb_spec y x) as [->|Hne].
  - split; [discriminate|]. intros H. destruct H. apply in_eq.
  - destruct (find_index x l); cbn [option_map].
    + split; [discriminate|]. intros H. exfalso.
      assert (~ In x l) as Hl by (intros Hin; apply H; now apply in_cons).
      apply IH in Hl. discriminate Hl.
    + split; [|reflexivity]. intros _ [Heq|Hin]; [congruence|].
      now apply IH.
Qed.

(** X6.  The boundary-condition lines are none or two: none for a key
    without a segment "boundaryField", and none when "boundaryField" comes
    first as the last segment; otherwise a line on the type and a line on
    the value of the patch, each starting with "BC ". *)
Theorem boundary_condition_info_shape eng full_key :
  (~ In "boundaryField" (split_on "." full_key) ->
   boundary_condition_info eng full_key = [])
  /\ (List.last (split_on "." full_key) "" = "boundaryField" ->
      find_index "boundaryField" (split_on "." full_key)
      = Some (length (split_on "." full_key) - 1)%nat ->
      boundary_condition_info eng full_key = [])
  /\ (length (boundary_condition_info eng full_key) = 0%nat
      \/ length (boundary_condition_info eng full_key) = 2%nat)
  /\ forall line, In line (boundary_condition_info eng full_key) ->
                  String.prefix "BC " line = true.
Proof.
  split; [|split; [|split]].
  - intros Hno. unfold boundary_condition_info.
    now rewrite (proj2 (find_index_None _ _) Hno).
  - intros _ Hidx. unfold boundary_condition_info. rewrite Hidx.
    rewrite lookup_ge_None_2; [reflexivity|].
    destruct (split_on "." full_key); cbn [length] in *; lia.
  - unfold boundary_condition_info.
    destruct (find_index _ _); [|now left].
    destruct (_ !! _); [now right|now left].
  - intros line Hin.
    apply (EntryMetaFacts.boundary_condition_info_prefix eng full_key).
    now apply list_elem_of_In.
Qed.

Lemma boundary_condition_info_shape_witness :
  boundary_condition_info Samples.sample_engine "PIMPLE.nCorrectors" = [].
Proof.
  destruct (boundary_condition_info_shape Samples.sample_engine
              "PIMPLE.nCorrectors") as [Hnone _].
  apply Hnone.
  intros H. vm_compute in H. destruct H as [H|[H|[]]]; discriminate H.
Defined.

Lemma split_on_go_no_sep sep cur s :
  all_chars (fun c => negb (Ascii.eqb c sep)) s = true ->
  split_on_go sep cur s = [cur ++ s].
Proof.
  revert cur. induction s as [|c t IH]; intros cur Hs.
  - cbn. clear. induction cur as [|a cur IH]; [reflexivity|].
    rewrite PyStrFacts.append_cons. now injection IH as <-.
  - cbn [all_chars] in Hs. apply andb_prop in Hs as [Hc Ht].
    cbn [split_on_go]. apply negb_true_iff in Hc. rewrite Hc, (IH _ Ht).
    f_equal. clear. induction cur as [|a cur IH]; [reflexivity|].
    rewrite !PyStrFacts.append_cons. now rewrite IH.
Qed.

Lemma split_on_go_sep sep cur s rest :
  all_chars (fun c => negb (Ascii.eqb c sep)) s = true ->
  split_on_go sep cur (s ++ String sep rest)
  = (cur ++ s) :: split_on_go sep "" rest.
Proof.
  revert cur. induction s as [|c t IH]; intros cur Hs.
  - change ("" ++ String sep rest) with (String sep rest).
    cbn [split_on_go]. rewrite Ascii.eqb_refl. f_equal.
    clear. induction cur as [|a cur IH]; [reflexivity|].
    rewrite PyStrFacts.append_cons. now rewrite <- IH.
  - cbn [all_chars] in Hs. apply andb_prop in Hs as [Hc Ht].
    rewrite PyStrFacts.append_cons. cbn [split_on_go].
    apply negb_true_iff in Hc. rewrite Hc, (IH _ Ht). f_equal.
    clear. induction cur as [|a cur IH]; [reflexivity|].
    rewrite !PyStrFacts.append_cons. now rewrite IH.
Qed.

Lemma append_empty_l s : "" ++ s = s.
Proof. reflexivity. Qed.

(** The lines for a key whose first two segments are "boundaryField" and
    [patch]. *)
Lemma boundary_condition_info_of_parts eng full_key patch tail :
  split_on "." full_key = "boundaryField" :: patch :: tail ->
  boundary_condition_info eng full_key
  = [match truthy (_read_optional_entry eng
                     (("boundaryField." ++ patch) ++ ".type")) with
     | Some bc_type => "BC " ++ patch ++ " type: " ++ bc_type
     | None => "BC " ++ patch ++ ": missing required entry 'type'"
     end;
     match truthy (_read_optional_entry eng
                     (("boundaryField." ++ patch) ++ ".value")) with
     | Some bc_value => "BC " ++ patch ++ " value: " ++ bc_value
     | None => "BC " ++ patch ++ ": value entry not found"
     end].
Proof.
  intros Hsplit. unfold boundary_condition_info. rewrite Hsplit.
  reflexivity.
Qed.

(** X7.  Every entry below a patch of a top-level "boundaryField" gets the
    same two lines as the patch itself, made from the entries [type] and
    [value] of the patch: where [read_entry] gives a text that is not blank,
    the line ends with that text stripped of the white space around it;
    where the text is blank or the entry cannot be read, the line is the
    notice that the entry is missing. *)
Theorem boundary_condition_info_below_patch eng patch rest :
  all_chars (fun c => negb (Ascii.eqb c ".")) patch = true ->
  let patch_key := "boundaryField." ++ patch in
  boundary_condition_info eng (patch_key ++ "." ++ rest)
  = [match read_entry eng (patch_key ++ ".type") with
     | Some text =>
         if String.eqb (strip text) ""
         then "BC " ++ patch ++ ": missing required entry 'type'"
         else "BC " ++ patch ++ " type: " ++ strip text
     | None => "BC " ++ patch ++ ": missing required entry 'type'"
     end;
     match read_entry eng (patch_key ++ ".value") with
     | Some text =>
         if String.eqb (strip text) ""
         then "BC " ++ patch ++ ": value entry not found"
         else "BC " ++ patch ++ " value: " ++ strip text
     | None => "BC " ++ patch ++ ": value entry not found"
     end]
  /\ boundary_condition_info eng patch_key
     = boundary_condition_info eng (patch_key ++ "." ++ rest).
Proof.
  intros Hpatch patch_key.
  assert (split_on "." (patch_key ++ "." ++ rest)
          = "boundaryField" :: patch :: split_on_go "." "" rest) as Hbelow.
  { unfold split_on, patch_key.
    change (("boundaryField." ++ patch) ++ "." ++ rest)
      with ("boundaryField" ++ String "." (patch ++ String "." rest)).
    rewrite (split_on_go_sep "." "" "boundaryField"); [|reflexivity].
    rewrite (split_on_go_sep "." "" patch _ Hpatch).
    now rewrite !append_empty_l. }
  assert (split_on "." patch_key = ["boundaryField"; patch]) as Hpatchkey.
  { unfold split_on, patch_key.
    change ("boundaryField." ++ patch)
      with ("boundaryField" ++ String "." patch).
    rewrite (split_on_go_sep "." "" "boundaryField"); [|reflexivity].
    rewrite (split_on_go_no_sep "." "" patch Hpatch).
    now rewrite !append_empty_l. }
  rewrite (boundary_condition_info_of_parts eng _ patch _ Hbelow).
  rewrite (boundary_condition_info_of_parts eng _ patch _ Hpatchkey).
  split; [|reflexivity].
  unfold _read_optional_entry, truthy. fold patch_key.
  f_equal; [|f_equal].
  - destruct (read_entry eng (patch_key ++ ".type")) as [text|]; [|reflexivity].
    now destruct (strip text).
  - destruct (read_entry eng (patch_key ++ ".value")) as [text|]; [|reflexivity].
    now destruct (strip text).
Qed.

Lemma boundary_condition_info_below_patch_witness :
  boundary_condition_info Cases.patch_engine "boundaryField.inlet.value"
  = ["BC inlet type: fixedValue"; "BC inlet: value entry not found"]
  /\ boundary_condition_info Cases.patch_engine "boundaryField.outlet.type"
     = ["BC outlet: missing required entry 'type'";
        "BC outlet: value entry not found"].
Proof.
  split.
  - destruct (boundary_condition_info_below_patch Cases.patch_engine
                "inlet" "value" eq_refl) as [H _].
    etransitivity; [exact H|]. vm_compute. reflexivity.
  - destruct (boundary_condition_info_below_patch Cases.patch_engine
                "outlet" "type" eq_refl) as [H _].
    etransitivity; [exact H|]. vm_compute. reflexivity.
Defined.

End EntryMetaMore.

(* ===================================================================== *)
(** * More properties of browser.py *)
(* ===================================================================== *)

Module BrowserMore.
Import PyStr Validation EntryMeta Browser BrowserRun.

(** X8.  The browser loop never dies of an [IndexError]: started in a
    well-formed state (cursor on an element, in the current list and in
    every frame of the stack), any sequence of keys, whatever the file
    becomes in between, ends the browser or leaves a well-formed state. *)
Theorem run_never_raises st keys :
  well_formed st ->
  match run st keys with
  | Continue st' => well_formed st'
  | Return => True
  | Raise => False
  end.
Proof.
  revert st. induction keys as [|[eng k] keys IH]; intros st Hwf.
  - exact Hwf.
  - cbn [run]. pose proof (BrowserFacts.step_safe eng st k Hwf) as Hstep.
    destruct (step eng st k) as [st'| |]; [|exact I|exact Hstep].
    now apply IH.
Qed.

Lemma run_never_raises_witness :
  run Samples.sample_state
      [(Samples.sample_engine, KeyEnter Samples.sample_engine);
       (Samples.sample_engine, KeyUp);
       (Samples.sample_engine, KeySearch (Typed "2"));
       (Samples.sample_engine, KeyBack);
       (Samples.sample_engine, KeyBottom)]
  <> Raise.
Proof.
  pose proof (run_never_raises Samples.sample_state
                [(Samples.sample_engine, KeyEnter Samples.sample_engine);
                 (Samples.sample_engine, KeyUp);
                 (Samples.sample_engine, KeySearch (Typed "2"));
                 (Samples.sample_engine, KeyBack);
                 (Samples.sample_engine, KeyBottom)]) as H.
  assert (well_formed Samples.sample_state) as Hwf.
  { split; [unfold cursor_ok; cbn; lia|constructor]. }
  specialize (H Hwf). intros E. rewrite E in H. exact H.
Defined.

Lemma step_up eng st key :
  PyStr.index (keywords st) (index st) = Some key ->
  step eng st KeyUp
  = Continue {| base_entry := base_entry st; keywords := keywords st;
                index := (index st - 1) mod Z.of_nat (length (keywords st));
                stack := stack st;
                cache := snd (get_entry_metadata eng (cache st)
                                (full_key_of (base_entry st) key));
                shown := shown st |}.
Proof.
  intros Hkey. unfold step. rewrite Hkey.
  destruct (get_entry_metadata _ _ _) as [[[[[[? ?] ?] ?] ?] ?] ?].
  reflexivity.
Qed.

Lemma step_down eng st key :
  PyStr.index (keywords st) (index st) = Some key ->
  step eng st KeyDown
  = Continue {| base_entry := base_entry st; keywords := keywords st;
                index := (index st + 1) mod Z.of_nat (length (keywords st));
                stack := stack st;
                cache := snd (get_entry_metadata eng (cache st)
                                (full_key_of (base_entry st) key));
                shown := shown st |}.
Proof.
  intros Hkey. unfold step. rewrite Hkey.
  destruct (get_entry_metadata _ _ _) as [[[[[[? ?] ?] ?] ?] ?] ?].
  reflexivity.
Qed.

Lemma succ_mod i n :
  0 <= i < n -> (i + 1) mod n = if i + 1 <? n then i + 1 else 0.
Proof.
  intros Hi. destruct (i + 1 <? n) eqn:E.
  - apply Z.mod_small. lia.
  - assert (i + 1 = n) as -> by lia. apply Z_mod_same_full.
Qed.

Lemma pred_mod i n :
  0 <= i < n -> (i - 1) mod n = if 0 <? i then i - 1 else n - 1.
Proof.
  intros Hi. destruct (0 <? i) eqn:E.
  - apply Z.mod_small. lia.
  - assert (i = 0) as -> by lia. symmetry.
    apply (Zmod_unique (0 - 1) n (-1) (n - 1)); lia.
Qed.

(** X9.  Moving down and up wraps around and the two moves undo each other:
    from a state whose cursor is on an element, "down" goes to the next
    element, or to the first one from the last; "up" goes to the previous
    element, or to the last one from the first; "down" then "up", and "up"
    then "down", put the cursor back where it was.  The list, the base entry
    and the stack are not touched. *)
Theorem down_and_up_wrap_and_undo eng eng' st :
  cursor_ok (keywords st) (index st) ->
  let n := Z.of_nat (length (keywords st)) in
  exists down down_up up up_down,
    step eng st KeyDown = Continue down
    /\ index down = (if index st + 1 <? n then index st + 1 else 0)
    /\ step eng' down KeyUp = Continue down_up
    /\ index down_up = index st
    /\ step eng st KeyUp = Continue up
    /\ index up = (if 0 <? index st then index st - 1 else n - 1)
    /\ step eng' up KeyDown = Continue up_down
    /\ index up_down = index st
    /\ Forall (fun s => base_entry s = base_entry st
                        /\ keywords s = keywords st /\ stack s = stack st)
              [down; down_up; up; up_down].
Proof.
  intros Hcur n. pose proof Hcur as Hn. unfold cursor_ok in Hn. fold n in Hn.
  destruct (BrowserFacts.index_in_range _ _ Hcur) as [key Hkey].
  rewrite (step_down eng st key Hkey), (step_up eng st key Hkey). fold n.
  assert (0 <= (index st + 1) mod n < n) as Hd by (apply Z.mod_pos_bound; lia).
  assert (0 <= (index st - 1) mod n < n) as Hu by (apply Z.mod_pos_bound; lia).
  destruct (BrowserFacts.index_in_range (keywords st) ((index st + 1) mod n))
    as [key1 Hkey1]; [exact Hd|].
  destruct (BrowserFacts.index_in_range (keywords st) ((index st - 1) mod n))
    as [key2 Hkey2]; [exact Hu|].
  eexists; eexists; eexists; eexists.
  split; [reflexivity|]. split; [cbn [index]; now apply succ_mod|].
  split.
  { erewrite step_up by (cbn [keywords index]; exact Hkey1). reflexivity. }
  split.
  { cbn [index keywords]. fold n. rewrite (pred_mod _ n Hd), (succ_mod _ n Hn).
    destruct (index st + 1 <? n) eqn:E.
    - replace (0 <? index st + 1) with true by (symmetry; apply Z.ltb_lt; lia).
      lia.
    - cbn. apply Z.ltb_ge in E. lia. }
  split; [reflexivity|]. split; [cbn [index]; now apply pred_mod|].
  split.
  { erewrite step_down by (cbn [keywords index]; exact Hkey2). reflexivity. }
  split.
  { cbn [index keywords]. fold n. rewrite (succ_mod _ n Hu), (pred_mod _ n Hn).
    destruct (0 <? index st) eqn:E.
    - replace (index st - 1 + 1 <? n) with true by (symmetry; apply Z.ltb_lt; lia).
      lia.
    - apply Z.ltb_ge in E.
      replace (n - 1 + 1 <? n) with false by (symmetry; apply Z.ltb_ge; lia).
      lia. }
  repeat constructor.
Qed.

Lemma down_and_up_wrap_and_undo_witness :
  exists down,
    step Samples.sample_engine
         {| base_entry := None; keywords := ["type"; "PIMPLE"; "solver"];
            index := 2; stack := []; cache := ∅; shown := [] |} KeyDown
    = Continue down
    /\ index down = 0.
Proof.
  destruct (down_and_up_wrap_and_undo Samples.sample_engine Samples.sample_engine
              {| base_entry := None; keywords := ["type"; "PIMPLE"; "solver"];
                 index := 2; stack := []; cache := ∅; shown := [] |})
    as (down & _ & _ & _ & Hdown & Hidx & _).
  { unfold cursor_ok. cbn. lia. }
  exists down. split; [exact Hdown|exact Hidx].
Defined.

Lemma pop_None {A} (l : list A) : pop l = None <-> l = [].
Proof.
  split; [|intros ->; reflexivity].
  induction l as [|x l IH]; [reflexivity|]. cbn [pop].
  destruct l as [|y l]; [discriminate|].
  destruct (pop (y :: l)) as [[t z]|]; [discriminate|].
  intros _. discriminate (IH eq_refl).
Qed.

(** One turn of the loop keeps [path_ok]. *)
Lemma step_path_ok eng st k st' :
  path_ok st -> step eng st k = Continue st' -> path_ok st'.
Proof.
  unfold path_ok. intros Hpath Hstep.
  destruct (PyStr.index (keywords st) (index st)) as [key|] eqn:Hkey;
    [|unfold step in Hstep; rewrite Hkey in Hstep; discriminate].
  destruct k as [| | | | |after_edit|input].
  - rewrite (step_up eng st key Hkey) in Hstep. now injection Hstep as <-.
  - rewrite (step_down eng st key Hkey) in Hstep. now injection Hstep as <-.
  - unfold step in Hstep. rewrite Hkey in Hstep.
    destruct (get_entry_metadata _ _ _) as [[[[[[? ?] ?] ?] ?] ?] ?].
    now injection Hstep as <-.
  - unfold step in Hstep. rewrite Hkey in Hstep.
    destruct (get_entry_metadata _ _ _) as [[[[[[? ?] ?] ?] ?] ?] ?].
    now injection Hstep as <-.
  - rewrite (BrowserFacts.step_back eng st key Hkey) in Hstep.
    destruct (pop (stack st)) as [[rest [[b ks] i]]|] eqn:Hpop; [|discriminate].
    injection Hstep as <-. cbn [stack base_entry].
    apply BrowserFacts.pop_Some in Hpop. rewrite Hpop, rev_app_distr in Hpath.
    cbn [rev app path_from_top] in Hpath. apply Hpath.
  - rewrite (BrowserFacts.step_enter eng st after_edit key Hkey) in Hstep.
    cbv zeta in Hstep.
    destruct (meta_subkeys _) as [|sub subkeys]; injection Hstep as <-;
      [exact Hpath|].
    cbn [stack base_entry]. rewrite rev_app_distr. cbn [rev app path_from_top].
    split; [|exact Hpath]. exists key. split; [exact Hkey|reflexivity].
  - unfold step in Hstep. rewrite Hkey in Hstep.
    destruct (get_entry_metadata _ _ _) as [[[[[[? ?] ?] ?] ?] ?] ?].
    destruct (_entry_browser_search _ _ _ _ _) as [[[? ?] ?]|]; [|discriminate].
    now injection Hstep as <-.
Qed.

Lemma str_app_assoc (a b c : string) : (a ++ b) ++ c = a ++ (b ++ c).
Proof.
  induction a as [|x a IH]; [reflexivity|].
  rewrite !PyStrFacts.append_cons. now rewrite IH.
Qed.

Lemma join_snoc sep p ps key :
  join sep ((p :: ps) ++ [key])%list = join sep (p :: ps) ++ sep ++ key.
Proof.
  revert p. induction ps as [|q ps IH]; intros p; [reflexivity|].
  change (join sep ((p :: q :: ps) ++ [key])%list)
    with (p ++ sep ++ join sep ((q :: ps) ++ [key])%list).
  rewrite IH.
  change (join sep (p :: q :: ps)) with (p ++ sep ++ join sep (q :: ps)).
  now rewrite !str_app_assoc.
Qed.

(** Going down one level appends the selected key to the path. *)
Lemma dotted_snoc path key :
  Some (full_key_of (dotted path) key) = dotted (path ++ [key]).
Proof.
  destruct path as [|p ps]; [reflexivity|].
  unfold dotted at 1. cbn [full_key_of].
  change (((p :: ps) ++ [key])%list) with (p :: (ps ++ [key]))%list.
  destruct (ps ++ [key])%list eqn:E; [now destruct ps|].
  rewrite <- E. unfold dotted.
  change (p :: (ps ++ [key]))%list with ((p :: ps) ++ [key])%list.
  now rewrite join_snoc.
Qed.

(** The frames, top first, spell out a path of keys. *)
Lemma path_from_top_follows frames : forall base,
  path_from_top frames base ->
  exists path,
    Forall2 (fun frame key => selected frame = Some key) (rev frames) path
    /\ base = dotted path
    /\ forall i frame, rev frames !! i = Some frame ->
                       frame_base frame = dotted (take i path).
Proof.
  induction frames as [|[[b ks] i] below IH]; intros base Hpath.
  - exists []. cbn in *. repeat split; [constructor|exact Hpath|].
    intros j frame Hj. discriminate Hj.
  - destruct Hpath as [(key & Hkey & ->) Hbelow].
    destruct (IH b Hbelow) as (path & Hsel & -> & Hbases).
    exists (path ++ [key])%list. cbn [rev]. split; [|split].
    + apply Forall2_app; [exact Hsel|]. constructor; [exact Hkey|constructor].
    + apply dotted_snoc.
    + intros j frame Hj. pose proof (Forall2_length _ _ _ Hsel) as Hlen.
      apply lookup_app_Some in Hj as [Hj|[Hge Hj]].
      * rewrite take_app_le.
        -- now apply Hbases.
        -- apply lookup_lt_Some in Hj. lia.
      * apply list_lookup_singleton_Some in Hj as [Hj <-].
        cbn [frame_base]. rewrite take_app_length'; [reflexivity|lia].
Qed.

(** X10.  The base entry is always the path of the entries selected on the
    way down, joined by dots: in a browser opened at the top level (no base
    entry, empty stack), after any sequence of keys there is a list of keys,
    one per frame of the stack and each the key under the cursor of its
    frame, such that the base entry is these keys joined by "." ([None] for
    no key) and the base entry kept in the frame at depth [i] is the first
    [i] of them joined by "."; the base entry is [None] exactly when the
    stack is empty. *)
Theorem base_entry_follows_stack st keys st' :
  base_entry st = None ->
  stack st = [] ->
  run st keys = Continue st' ->
  (exists path,
      Forall2 (fun frame key => selected frame = Some key) (stack st') path
      /\ base_entry st'
         = match path with
           | [] => None
           | _ :: _ => Some (join "." path)
           end
      /\ forall i frame,
           stack st' !! i = Some frame ->
           frame_base frame
           = match take i path with
             | [] => None
             | _ :: _ => Some (join "." (take i path))
             end)
  /\ (base_entry st' = None <-> stack st' = []).
Proof.
  intros Hbase Hstack Hrun.
  assert (path_ok st) as Hpath.
  { unfold path_ok. rewrite Hstack. exact Hbase. }
  clear Hbase Hstack.
  assert (path_ok st') as Hpath'.
  { revert st Hpath Hrun. induction keys as [|[eng k] keys IH]; intros st Hpath Hrun.
    - now injection Hrun as <-.
    - cbn [run] in Hrun.
      destruct (step eng st k) as [st1| |] eqn:Hstep; try discriminate.
      apply (IH st1); [|exact Hrun]. exact (step_path_ok eng st k st1 Hpath Hstep). }
  unfold path_ok in Hpath'.
  destruct (path_from_top_follows _ _ Hpath') as (path & Hsel & Hb & Hbases).
  rewrite rev_involutive in Hsel, Hbases.
  split.
  - exists path. split; [exact Hsel|]. split; [exact Hb|exact Hbases].
  - rewrite Hb. apply Forall2_length in Hsel.
    destruct path as [|p ps], (stack st') as [|f fs]; try discriminate Hsel;
      split; try discriminate; reflexivity.
Qed.

Lemma base_entry_follows_stack_witness :
  exists st',
    run Cases.patch_state
        [(Cases.patch_engine, KeyEnter Cases.patch_engine);
         (Cases.patch_engine, KeyEnter Cases.patch_engine);
         (Cases.patch_engine, KeyDown)]
    = Continue st'
    /\ base_entry st' = Some "boundaryField.inlet"
    /\ map frame_base (stack st') = [None; Some "boundaryField"]
    /\ exists path,
         Forall2 (fun frame key => selected frame = Some key) (stack st') path
         /\ base_entry st'
            = match path with
              | [] => None
              | _ :: _ => Some (join "." path)
              end.
Proof.
  eexists. split; [vm_compute; reflexivity|].
  split; [reflexivity|]. split; [reflexivity|].
  destruct (base_entry_follows_stack Cases.patch_state
              [(Cases.patch_engine, KeyEnter Cases.patch_engine);
               (Cases.patch_engine, KeyEnter Cases.patch_engine);
               (Cases.patch_engine, KeyDown)] _ eq_refl eq_refl
              ltac:(vm_compute; reflexivity))
    as [(path & Hsel & Hb & _) _].
  exists path. split; [exact Hsel|exact Hb].
Defined.

(** X11.  Among the keys of the loop, only "back" ends the browser, and
    only at the top level: in a state whose cursor is on an element and
    whose base entry follows its stack, a turn returns exactly when the key
    is "back" and there is no base entry. *)
Theorem only_back_at_top_level_returns eng st k :
  cursor_ok (keywords st) (index st) ->
  path_ok st ->
  step eng st k = Return <-> k = KeyBack /\ base_entry st = None.
Proof.
  intros Hcur Hpath.
  destruct (BrowserFacts.index_in_range _ _ Hcur) as [key Hkey].
  assert (base_entry st = None <-> stack st = []) as Htop.
  { unfold path_ok in Hpath.
    destruct (rev (stack st)) as [|[[b ks] i] below] eqn:Hrev.
    - cbn in Hpath. split; [intros _|intros _; exact Hpath].
      apply (f_equal (@rev _)) in Hrev. now rewrite rev_involutive in Hrev.
    - destruct Hpath as [(key' & _ & ->) _]. split; [discriminate|].
      intros E. rewrite E in Hrev. discriminate Hrev. }
  rewrite Htop. destruct k as [| | | | |after_edit|input].
  - rewrite (step_up eng st key Hkey). split; [discriminate|intros [? _]; discriminate].
  - rewrite (step_down eng st key Hkey). split; [discriminate|intros [? _]; discriminate].
  - unfold step. rewrite Hkey.
    destruct (get_entry_metadata _ _ _) as [[[[[[? ?] ?] ?] ?] ?] ?].
    split; [discriminate|intros [? _]; discriminate].
  - unfold step. rewrite Hkey.
    destruct (get_entry_metadata _ _ _) as [[[[[[? ?] ?] ?] ?] ?] ?].
    split; [discriminate|intros [? _]; discriminate].
  - rewrite (BrowserFacts.step_back eng st key Hkey).
    destruct (pop (stack st)) as [[rest [[b ks] i]]|] eqn:Hpop.
    + split; [discriminate|]. intros [_ E]. rewrite E in Hpop. discriminate.
    + apply pop_None in Hpop. tauto.
  - rewrite (BrowserFacts.step_enter eng st after_edit key Hkey). cbv zeta.
    destruct (meta_subkeys _); (split; [discriminate|intros [? _]; discriminate]).
  - unfold step. rewrite Hkey.
    destruct (get_entry_metadata _ _ _) as [[[[[[? ?] ?] ?] ?] ?] ?].
    destruct (_entry_browser_search _ _ _ _ _) as [[[? ?] ?]|];
      (split; [discriminate|intros [? _]; discriminate]).
Qed.

Lemma only_back_at_top_level_returns_witness :
  step Samples.sample_engine Samples.sample_state KeyBack = Return.
Proof.
  apply (only_back_at_top_level_returns Samples.sample_engine
           Samples.sample_state KeyBack).
  - unfold cursor_ok. cbn. lia.
  - reflexivity.
  - split; reflexivity.
Defined.

(** Going forward, the scan of [n] turns meets every index. *)
Lemma forward_scan_covers n current_index idx :
  0 <= idx < n ->
  exists turn, 1 <= turn <= n
               /\ scan_index n current_index 1 turn = idx.
Proof.
  intros Hidx. exists ((idx - current_index - 1) mod n + 1).
  assert (0 <= (idx - current_index - 1) mod n < n) as Hm
    by (apply Z.mod_pos_bound; lia).
  split; [lia|]. unfold scan_index.
  replace (current_index + 1 * ((idx - current_index - 1) mod n + 1))
    with ((current_index + 1) + (idx - current_index - 1) mod n) by lia.
  rewrite Zplus_mod_idemp_r.
  replace (current_index + 1 + (idx - current_index - 1)) with idx by lia.
  apply Z.mod_small. exact Hidx.
Qed.

(** X12.  A forward search looks at every entry: it ends without exception;
    when it returns an index, the index is in the list and its entry
    matches; when it returns [None], no entry of the list matches. *)
Theorem forward_search_is_exhaustive eng (cache : Cache) keywords
    current_index query :
  let n := Z.of_nat (length keywords) in
  exists result cache',
    _search_entries eng cache keywords current_index query 1
    = Some (result, cache')
    /\ match result with
       | Some idx =>
           0 <= idx < n
           /\ entry_matches eng cache keywords query idx = true
       | None =>
           forall idx, 0 <= idx < n ->
                       entry_matches eng cache keywords query idx = false
       end.
Proof.
  intros n.
  destruct (BrowserFacts._search_entries_spec eng cache keywords current_index
              query 1) as (result & cache' & Hrun & Hfirst).
  exists result, cache'. split; [exact Hrun|].
  unfold first_match in Hfirst. fold n in Hfirst.
  destruct result as [idx|].
  - destruct Hfirst as (turn & Hturn & -> & Hm & _). split; [|exact Hm].
    apply Z.mod_pos_bound. lia.
  - intros idx Hidx.
    destruct (forward_scan_covers n current_index idx Hidx) as (turn & Hturn & <-).
    now apply Hfirst.
Qed.

(** X13.  The entry under the cursor is tried last: when a forward search
    started on an element returns the index it started from, no other entry
    of the list matches. *)
Theorem forward_search_tries_cursor_last eng (cache cache' : Cache) keywords
    current_index query :
  cursor_ok keywords current_index ->
  _search_entries eng cache keywords current_index query 1
  = Some (Some current_index, cache') ->
  forall idx, 0 <= idx < Z.of_nat (length keywords) ->
              idx <> current_index ->
              entry_matches eng cache keywords query idx = false.
Proof.
  intros Hcur Hrun idx Hidx Hne. unfold cursor_ok in Hcur.
  set (n := Z.of_nat (length keywords)) in *.
  destruct (BrowserFacts._search_entries_spec eng cache keywords current_index
              query 1) as (result & cache'' & Hrun' & Hfirst).
  rewrite Hrun in Hrun'. injection Hrun' as <- <-.
  unfold first_match in Hfirst. fold n in Hfirst.
  destruct Hfirst as (turn & Hturn & Heq & _ & Hbefore).
  assert (turn = n) as ->.
  { destruct (decide (turn = n)) as [|Hlt]; [assumption|exfalso].
    unfold scan_index in Heq.
    replace (current_index + 1 * turn) with (current_index + turn) in Heq by lia.
    destruct (decide (current_index + turn < n)) as [Hsmall|Hbig].
    - rewrite Z.mod_small in Heq by lia. lia.
    - assert ((current_index + turn) mod n = current_index + turn - n) as E.
      { symmetry. apply (Zmod_unique _ n 1); lia. }
      lia. }
  destruct (forward_scan_covers n current_index idx Hidx) as (turn & Hturn' & <-).
  apply Hbefore.
  destruct (decide (turn = n)) as [->|]; [|lia].
  exfalso. apply Hne. unfold scan_index.
  rewrite Z_mod_plus_full. apply Z.mod_small. lia.
Qed.

Lemma forward_search_tries_cursor_last_witness :
  entry_matches Samples.sample_engine ∅ ["type"; "PIMPLE"; "solver"]
                "pimple" 2 = false.
Proof.
  assert (exists cache',
             _search_entries Samples.sample_engine ∅
               ["type"; "PIMPLE"; "solver"] 1 "pimple" 1
             = Some (Some 1, cache')) as [cache' Hrun].
  { eexists. vm_compute. reflexivity. }
  apply (forward_search_tries_cursor_last Samples.sample_engine ∅ cache'
           ["type"; "PIMPLE"; "solver"] 1 "pimple");
    [unfold cursor_ok; cbn; lia|exact Hrun|cbn; lia|lia].
Defined.

(** The loop of [_search_entries] adds to the cache and changes nothing in
    it. *)
Lemma search_steps_cache eng keywords current_index direction q :
  forall todo turn (cache cache' : Cache) result,
    search_steps eng keywords current_index direction q todo turn cache
    = Some (result, cache') ->
    (forall k e, cache !! k = Some e -> cache' !! k = Some e)
    /\ (forall k, cache !! k = None -> is_Some (cache' !! k) -> In k keywords).
Proof.
  induction todo as [|todo IH]; intros turn cache cache' result Hrun.
  - injection Hrun as <- <-. split; [auto|].
    intros k Hk [e He]. congruence.
  - cbn [search_steps] in Hrun.
    destruct (PyStr.index keywords _) as [key|] eqn:Hkey; [|discriminate].
    assert (In key keywords) as Hin.
    { unfold PyStr.index in Hkey. apply list_elem_of_In.
      repeat case_match; try discriminate;
        eapply list_elem_of_lookup_2; exact Hkey. }
    pose proof (EntryMetaMore.resolve_keeps eng cache key) as Hkeep.
    pose proof (EntryMetaMore.resolve_other eng cache key) as Hother.
    destruct (get_entry_metadata eng cache key) as [m cache1].
    cbn [snd] in Hkeep, Hother.
    assert (forall k, cache !! k = None -> is_Some (cache1 !! k) -> In k keywords)
      as Hnew.
    { intros k Hk Hsome. destruct (decide (k = key)) as [->|Hne]; [exact Hin|].
      rewrite (Hother k Hne), Hk in Hsome. by destruct Hsome. }
    destruct (str_in q _).
    + injection Hrun as <- <-. split; [exact Hkeep|exact Hnew].
    + destruct (IH _ _ _ _ Hrun) as [Hk1 Hn1]. split.
      * intros k e He. apply Hk1, Hkeep, He.
      * intros k Hk Hsome. destruct (cache1 !! k) eqn:E.
        -- apply Hnew; [exact Hk|]. rewrite E. eauto.
        -- now apply Hn1.
Qed.

(** X14.  A search fills the cache and never rewrites it: every binding of
    the cache is still there afterwards, unchanged, and every key added is
    one of the keys searched. *)
Theorem search_only_adds_to_cache eng (cache cache' : Cache) keywords
    current_index query direction result :
  _search_entries eng cache keywords current_index query direction
  = Some (result, cache') ->
  (forall k e, cache !! k = Some e -> cache' !! k = Some e)
  /\ (forall k, cache !! k = None -> is_Some (cache' !! k) -> In k keywords).
Proof.
  unfold _search_entries. destruct keywords as [|k0 ks] eqn:E.
  - intros [= <- <-]. split; [auto|]. intros k Hk [e He]. congruence.
  - rewrite <- E. apply search_steps_cache.
Qed.

Lemma search_only_adds_to_cache_witness :
  exists result cache',
    _search_entries Samples.sample_engine
      {[ "solver" := ("GAMG", "text", [], [], []) ]}
      ["type"; "PIMPLE"; "solver"] 0 "pcg" 1 = Some (result, cache')
    /\ cache' !! "solver" = Some ("GAMG", "text", [], [], []).
Proof.
  destruct (BrowserFacts._search_entries_spec Samples.sample_engine
              {[ "solver" := ("GAMG", "text", [], [], []) ]}
              ["type"; "PIMPLE"; "solver"] 0 "pcg" 1)
    as (result & cache' & Hrun & _).
  exists result, cache'. split; [exact Hrun|].
  destruct (search_only_adds_to_cache _ _ _ _ _ _ _ _ Hrun) as [Hkeep _].
  apply Hkeep. apply lookup_singleton_eq.
Defined.

Lemma find_index_spec x l i :
  find_index x l = Some i
  <-> l !! i = Some x /\ forall j, (j < i)%nat -> l !! j <> Some x.
Proof.
  revert i. induction l as [|y l IH]; intros i.
  - cbn. split; [discriminate|]. intros [H _]. discriminate H.
  - cbn [find_index]. destruct (String.eqb_spec y x) as [->|Hne].
    + split.
      * intros [= <-]. split; [reflexivity|]. intros j Hj. lia.
      * intros [Hi Hfirst]. destruct i as [|i]; [reflexivity|].
        exfalso. apply (Hfirst 0%nat); [lia|reflexivity].
    + destruct i as [|i].
      * split; [destruct (find_index x l); discriminate|].
        intros [Hi _]. cbn in Hi. congruence.
      * assert (option_map S (find_index x l) = Some (S i)
                <-> find_index x l = Some i) as ->.
        { destruct (find_index x l); cbn; split; congruence. }
        rewrite IH. cbn [lookup list_lookup]. split.
        -- intros [Hi Hfirst]. split; [exact Hi|].
           intros [|j'] Hlt; cbn; [congruence|]. apply Hfirst. lia.
        -- intros [Hi Hfirst]. split; [exact Hi|].
           intros j' Hj'. apply (Hfirst (S j')). lia.
Qed.

(** X15.  The pick of [fzf] is turned into the first position of the list
    that holds the trimmed output: [_fzf_pick_entry_in_file] returns [i]
    exactly when [fzf] ended with return code 0, its trimmed output is not
    empty, position [i] of the list holds it and no earlier position does. *)
Theorem fzf_pick_is_first_position keywords out i :
  _fzf_pick_entry_in_file keywords out = Some i
  <-> exists stdout,
        out = Some stdout
        /\ strip stdout <> ""
        /\ 0 <= i
        /\ keywords !! Z.to_nat i = Some (strip stdout)
        /\ forall j, (j < Z.to_nat i)%nat -> keywords !! j <> Some (strip stdout).
Proof.
  unfold _fzf_pick_entry_in_file. split.
  - destruct keywords as [|k0 ks] eqn:Ek; [discriminate|]. rewrite <- Ek.
    destruct out as [stdout|]; [|discriminate].
    destruct (strip stdout) as [|c sel] eqn:Es; [discriminate|].
    destruct (find_index _ keywords) as [j|] eqn:Ej; [|discriminate].
    intros [= <-]. exists stdout. rewrite Es, Nat2Z.id.
    apply find_index_spec in Ej as [Hj Hfirst].
    repeat split; [discriminate|lia|exact Hj|exact Hfirst].
  - intros (stdout & -> & Hne & Hi & Hat & Hfirst).
    destruct keywords as [|k0 ks] eqn:Ek; [discriminate Hat|]. rewrite <- Ek in *.
    destruct (strip stdout) as [|c sel] eqn:Es; [done|].
    rewrite (proj2 (find_index_spec _ _ (Z.to_nat i)) (conj Hat Hfirst)).
    cbn [option_map]. f_equal. lia.
Qed.

Lemma fzf_pick_is_first_position_witness :
  _fzf_pick_entry_in_file ["type"; "PIMPLE"; "solver"] (Some " PIMPLE
") = Some 1.
Proof.
  apply fzf_pick_is_first_position. eexists. split; [reflexivity|].
  split; [discriminate|]. split; [lia|]. split; [reflexivity|].
  intros [|[|j]] Hj; [discriminate|cbn in Hj; lia|cbn in Hj; lia].
Defined.

End BrowserMore.

(* ===================================================================== *)
(** * Properties of the scrolling rules and of the key labels *)
(* ===================================================================== *)

Module ScrollingFacts.
Import Scrolling.

Ltac no_test t :=
  lazymatch t with
  | context [if _ then _ else _] => fail
  | _ => idtac
  end.

Ltac scroll_cases :=
  cbv zeta;
  repeat match goal with
         | |- context [?a <? ?b] =>
             no_test a; no_test b; destruct (Z.ltb_spec a b)
         | |- context [?a <=? ?b] =>
             no_test a; no_test b; destruct (Z.leb_spec a b)
         end.

(** X16.  After [_entry_browser_scroll] the cursor is on the screen: on a
    screen with room for at least one row of the list (height above 5) and
    for a cursor on an element, the new scroll offset [s] satisfies
    [s <= index < s + rows]; it is at most [max(0, total - rows)], it is not
    negative when the old offset was not, and computing it again from itself
    changes nothing.  On a smaller screen the offset is 0. *)
Theorem entry_browser_scroll_shows_cursor index list_scroll height total :
  0 <= index < total ->
  let rows := Z.max 0 (height - 1 - 4) in
  let s := _entry_browser_scroll index list_scroll height total in
  (height <= 5 -> s = 0)
  /\ (5 < height ->
      s <= index < s + rows
      /\ s <= Z.max 0 (total - rows)
      /\ (0 <= list_scroll -> 0 <= s)
      /\ _entry_browser_scroll index s height total = s).
Proof.
  intros Hidx rows s.
  assert (height <= 5 -> s = 0) as Hsmall.
  { intros Hh. subst rows s. unfold _entry_browser_scroll. scroll_cases; lia. }
  assert (5 < height ->
          s <= index < s + rows /\ s <= Z.max 0 (total - rows)
          /\ (0 <= list_scroll -> 0 <= s)) as Hbig.
  { intros Hh. subst rows s. unfold _entry_browser_scroll.
    repeat split; scroll_cases; lia. }
  split; [exact Hsmall|]. intros Hh.
  destruct (Hbig Hh) as (Hvis & Hmax & Hpos).
  repeat split; try tauto.
  clearbody s. subst rows. unfold _entry_browser_scroll. scroll_cases; lia.
Qed.

Lemma entry_browser_scroll_shows_cursor_witness :
  _entry_browser_scroll 50 0 10 100 <= 50
  < _entry_browser_scroll 50 0 10 100 + 5.
Proof.
  destruct (entry_browser_scroll_shows_cursor 50 0 10 100 ltac:(lia))
    as [_ H].
  destruct (H ltac:(lia)) as (Hvisible & _). exact Hvisible.
Defined.

(** X17.  [_menu_scroll] keeps the cursor on the screen in the same way,
    for any number of header rows: with at least one visible row and a
    cursor on an element, the new offset [s] satisfies
    [s <= current < s + visible] and [s <= max(0, total - visible)], and is
    stable; with no visible row it is 0.  With four header rows it is the
    offset [_entry_browser_scroll] computes. *)
Theorem menu_scroll_shows_cursor current scroll height total header_rows :
  0 <= current < total ->
  let visible := Z.max 0 (height - header_rows - 1) in
  let s := _menu_scroll current scroll height total header_rows in
  (visible = 0 -> s = 0)
  /\ (0 < visible ->
      s <= current < s + visible
      /\ s <= Z.max 0 (total - visible)
      /\ (0 <= scroll -> 0 <= s)
      /\ _menu_scroll current s height total header_rows = s)
  /\ _menu_scroll current scroll height total 4
     = _entry_browser_scroll current scroll height total.
Proof.
  intros Hcur visible s.
  assert (visible = 0 -> s = 0) as Hsmall.
  { intros Hv. subst visible s. unfold _menu_scroll. scroll_cases; lia. }
  assert (0 < visible ->
          s <= current < s + visible /\ s <= Z.max 0 (total - visible)
          /\ (0 <= scroll -> 0 <= s)) as Hbig.
  { intros Hv. subst visible s. unfold _menu_scroll.
    repeat split; scroll_cases; lia. }
  split; [exact Hsmall|]. split.
  - intros Hv. destruct (Hbig Hv) as (Hvis & Hmax & Hpos).
    repeat split; try tauto.
    clearbody s. subst visible. unfold _menu_scroll. scroll_cases; lia.
  - unfold _menu_scroll, _entry_browser_scroll.
    replace (height - 4 - 1) with (height - 1 - 4) by lia.
    scroll_cases; lia.
Qed.

Lemma menu_scroll_shows_cursor_witness :
  _menu_scroll 50 0 10 100 3 <= 50 < _menu_scroll 50 0 10 100 3 + 6.
Proof.
  destruct (menu_scroll_shows_cursor 50 0 10 100 3 ltac:(lia)) as (_ & H & _).
  destruct (H ltac:(lia)) as (Hvisible & _). exact Hvisible.
Defined.

End ScrollingFacts.

Module ConfigFacts.
Import PyText Config.

Lemma ord_range c : 0 <= ord c <= 255.
Proof.
  unfold ord. pose proof (N_ascii_bounded c). lia.
Qed.

(** X18.  A key matches a list of labels exactly when some label of one
    character has that key code, the newline label standing for both the
    line feed (10) and the carriage return (13).  Empty labels and labels of
    several characters never match, and no key code outside 0..255 (the
    special keys of curses) matches any label. *)
Theorem key_in_spec key labels :
  (key_in key labels = true
   <-> exists c, In (String c "") labels
                 /\ (key = ord c \/ (c = newline /\ key = 13)))
  /\ (key_in key labels = true -> 0 <= key <= 255).
Proof.
  assert (key_in key labels = true
          <-> exists c, In (String c "") labels
                        /\ (key = ord c \/ (c = newline /\ key = 13))) as Hspec.
  { induction labels as [|label rest IH]; cbn [key_in In].
    - split; [discriminate|]. intros (c & [] & _).
    - destruct label as [|c [|c2 more]].
      + rewrite IH. split.
        * intros (c & Hin & Hk). exists c. split; [now right|exact Hk].
        * intros (c & [Heq|Hin] & Hk); [discriminate Heq|]. now exists c.
      + destruct (Ascii.eqb_spec c newline) as [->|Hnl].
        * destruct ((key =? 10) || (key =? 13)) eqn:E.
          -- split; [intros _|reflexivity]. exists newline.
             split; [now left|].
             apply orb_prop in E as [E|E]; apply Z.eqb_eq in E;
               [left; exact E|right; now split].
          -- rewrite IH. split.
             ++ intros (c & Hin & Hk). exists c. split; [now right|exact Hk].
             ++ intros (c & [Heq|Hin] & Hk); [|now exists c].
                injection Heq as <-. exfalso.
                apply orb_false_elim in E as [E1 E2].
                apply Z.eqb_neq in E1, E2.
                destruct Hk as [Hk|[_ Hk]]; [apply E1; exact Hk|now apply E2].
        * destruct (Z.eqb_spec key (ord c)) as [->|Hne].
          -- split; [intros _|reflexivity]. exists c. split; [now left|now left].
          -- rewrite IH. split.
             ++ intros (c' & Hin & Hk). exists c'. split; [now right|exact Hk].
             ++ intros (c' & [Heq|Hin] & Hk); [|now exists c'].
                injection Heq as <-. exfalso.
                destruct Hk as [Hk|[Hk _]]; [now apply Hne|now apply Hnl].
      + rewrite IH. split.
        * intros (c' & Hin & Hk). exists c'. split; [now right|exact Hk].
        * intros (c' & [Heq|Hin] & Hk); [discriminate Heq|]. now exists c'. }
  split; [exact Hspec|].
  intros H. apply Hspec in H as (c & _ & [->|[_ ->]]); [apply ord_range|lia].
Qed.

Lemma key_in_spec_witness :
  key_in 13 ["l"; String newline ""] = true /\ key_in KEY_UP ["k"] = false.
Proof.
  destruct (key_in_spec 13 ["l"; String newline ""]) as [[_ H] _].
  split.
  - apply H. exists newline. split; [right; now left|right; now split].
  - destruct (key_in_spec KEY_UP ["k"]) as [_ Hrange].
    destruct (key_in KEY_UP ["k"]); [|reflexivity].
    specialize (Hrange eq_refl). unfold KEY_UP in Hrange. lia.
Defined.

End ConfigFacts.

(* ===================================================================== *)
(** * Properties of the command prompt of app.py *)
(* ===================================================================== *)

Module PromptFacts.
Import PyStr PyText Config Prompt.

Lemma text_of_chars_of s : text_of (chars_of s) = s.
Proof. apply string_of_list_ascii_of_string. Qed.

Lemma prefix_refl s : String.prefix s s = true.
Proof.
  induction s as [|c s IH]; [reflexivity|].
  rewrite PyStrFacts.prefix_cons. destruct (ascii_dec c c); [exact IH|done].
Qed.

Lemma chr_ord c : chr (ord c) = c.
Proof. unfold chr, ord. rewrite N2Z.id. apply ascii_N_embedding. Qed.

Lemma length_list_insert_at {A} (i : Z) (x : A) l :
  length (list_insert_at i x l) = S (length l).
Proof.
  unfold list_insert_at. rewrite length_app. cbn [length].
  rewrite length_take, length_drop. lia.
Qed.

Lemma list_insert_at_in_range {A} (i : Z) (x : A) l :
  0 <= i <= Z.of_nat (length l) ->
  list_insert_at i x l = (take (Z.to_nat i) l ++ x :: drop (Z.to_nat i) l)%list.
Proof.
  intros Hi. unfold list_insert_at.
  rewrite (proj2 (Z.ltb_ge i 0)) by lia. now rewrite Z.min_l by lia.
Qed.

Lemma list_pop_at_insert_at {A} (i : Z) (x : A) l :
  0 <= i <= Z.of_nat (length l) ->
  list_pop_at i (list_insert_at i x l) = Some l.
Proof.
  intros Hi. unfold list_pop_at. rewrite length_list_insert_at.
  rewrite (proj2 (Z.leb_le 0 i)), (proj2 (Z.ltb_lt i _)) by lia. cbn [andb].
  f_equal. rewrite list_insert_at_in_range by exact Hi.
  assert (length (take (Z.to_nat i) l) = Z.to_nat i) as Hlen
    by (rewrite length_take; lia).
  rewrite <- Hlen at 1. rewrite delete_middle. apply take_drop.
Qed.

(** The keys the first tests of the loop do not catch, in the printable
    range. *)
Lemma printable_key_inserts suggestions st key :
  32 <= key <= 126 ->
  prompt_key suggestions st key
  = Next {| buffer := list_insert_at (cursor st) (chr key) (buffer st);
            cursor := cursor st + 1;
            last_matches := last_matches st;
            match_index := match_index st;
            last_buffer := last_buffer st |}.
Proof.
  intros Hkey. unfold prompt_key, KEY_ENTER, KEY_BACKSPACE, KEY_LEFT, KEY_RIGHT.
  repeat match goal with
         | |- context [key =? ?c] =>
             rewrite (proj2 (Z.eqb_neq key c)) by lia
         end.
  cbn [orb]. now rewrite (proj2 (Z.leb_le 32 key)), (proj2 (Z.leb_le key 126)) by lia.
Qed.

Lemma backspace_deletes suggestions st :
  0 < cursor st ->
  prompt_key suggestions st KEY_BACKSPACE
  = match list_pop_at (cursor st - 1) (buffer st) with
    | None => Crash
    | Some b =>
        Next {| buffer := b; cursor := cursor st - 1;
                last_matches := last_matches st;
                match_index := match_index st;
                last_buffer := last_buffer st |}
    end.
Proof.
  intros Hc. unfold prompt_key. cbn.
  now rewrite (proj2 (Z.ltb_lt 0 (cursor st))) by lia.
Qed.

(** X19.  Typing a printable character and then Backspace puts the buffer
    and the cursor back, wherever the cursor is in the buffer. *)
Theorem type_then_backspace_restores suggestions st key :
  cursor_in_buffer st ->
  32 <= key <= 126 ->
  exists typed erased,
    prompt_key suggestions st key = Next typed
    /\ buffer typed
       = (take (Z.to_nat (cursor st)) (buffer st) ++ chr key
          :: drop (Z.to_nat (cursor st)) (buffer st))%list
    /\ cursor typed = cursor st + 1
    /\ prompt_key suggestions typed KEY_BACKSPACE = Next erased
    /\ buffer erased = buffer st
    /\ cursor erased = cursor st.
Proof.
  intros Hcur Hkey. unfold cursor_in_buffer in Hcur.
  rewrite (printable_key_inserts suggestions st key Hkey).
  eexists; eexists. split; [reflexivity|]. cbn [buffer cursor].
  split; [now apply list_insert_at_in_range|]. split; [reflexivity|].
  rewrite backspace_deletes by (cbn [cursor]; lia). cbn [buffer cursor].
  replace (cursor st + 1 - 1) with (cursor st) by lia.
  rewrite list_pop_at_insert_at by exact Hcur.
  repeat split.
Qed.

Lemma type_then_backspace_restores_witness :
  exists typed erased,
    prompt_key None initial 97 = Next typed
    /\ buffer typed = ["a"%char]
    /\ prompt_key None typed KEY_BACKSPACE = Next erased
    /\ buffer erased = [].
Proof.
  destruct (type_then_backspace_restores None initial 97)
    as (typed & erased & H1 & H2 & _ & H4 & H5 & _);
    [unfold cursor_in_buffer; cbn; lia|lia|].
  exists typed, erased. repeat split; assumption.
Defined.

Lemma list_pop_at_in_range {A} (i : Z) (l : list A) :
  0 <= i < Z.of_nat (length l) ->
  exists b, list_pop_at i l = Some b /\ S (length b) = length l.
Proof.
  intros Hi. unfold list_pop_at.
  rewrite (proj2 (Z.leb_le 0 i)), (proj2 (Z.ltb_lt i _)) by lia. cbn [andb].
  eexists. split; [reflexivity|].
  rewrite length_delete; [lia|]. apply lookup_lt_is_Some. lia.
Qed.

Lemma index_mod_In (l : list string) (i : Z) :
  l <> [] ->
  exists x, PyStr.index l (i mod Z.of_nat (length l)) = Some x /\ In x l.
Proof.
  intros Hl.
  assert (0 <= i mod Z.of_nat (length l) < Z.of_nat (length l)) as Hrange.
  { apply Z.mod_pos_bound. destruct l; [congruence | cbn [length]; lia]. }
  destruct (BrowserFacts.index_in_range _ _ Hrange) as [x Hx].
  exists x. split; [exact Hx|].
  unfold PyStr.index in Hx.
  rewrite (proj2 (Z.leb_le 0 _)), (proj2 (Z.ltb_lt _ _)) in Hx by lia.
  cbn [andb] in Hx. apply list_elem_of_In.
  eapply list_elem_of_lookup_2. exact Hx.
Qed.

(** What Tab does, in terms of the matches it works with. *)
Lemma tab_cases suggestions st :
  let pool := match suggestions with Some l => l | None => [] end in
  let current := text_of (buffer st) in
  let matches :=
    if String.eqb current (last_buffer st) then last_matches st
    else List.filter (fun s => startswith s current) pool in
  let lastb :=
    if String.eqb current (last_buffer st) then last_buffer st else current in
  (matches = []
   /\ exists idx,
        prompt_key suggestions st 9
        = Next {| buffer := buffer st; cursor := cursor st;
                  last_matches := matches; match_index := idx;
                  last_buffer := lastb |})
  \/ (exists completion idx,
        In completion matches
        /\ prompt_key suggestions st 9
           = Next {| buffer := chars_of completion;
                     cursor := Z.of_nat (length (chars_of completion));
                     last_matches := matches; match_index := idx;
                     last_buffer := lastb |}).
Proof.
  cbv zeta. unfold prompt_key.
  cbn [Z.eqb orb KEY_ENTER KEY_BACKSPACE KEY_LEFT KEY_RIGHT].
  destruct (String.eqb (text_of (buffer st)) (last_buffer st)).
  - cbv beta iota.
    destruct (last_matches st) as [|m ms]; [left; eauto|]. right.
    destruct (index_mod_In (m :: ms) (match_index st)) as (c & Hc & Hin);
      [discriminate|].
    rewrite Hc. eauto.
  - cbv beta iota.
    destruct (List.filter _ _) as [|m ms]; [left; eauto|]. right.
    destruct (index_mod_In (m :: ms) 0) as (c & Hc & Hin); [discriminate|].
    rewrite Hc. eauto.
Qed.

(** One key keeps the cursor within the buffer and the remembered matches
    sound, and does not raise. *)
Lemma prompt_key_inv suggestions st key :
  cursor_in_buffer st -> matches_sound suggestions st ->
  match prompt_key suggestions st key with
  | Next st' => cursor_in_buffer st' /\ matches_sound suggestions st'
  | Done _ => True
  | Crash => False
  end.
Proof.
  intros Hc Hm. unfold cursor_in_buffer in Hc.
  destruct (Z.eq_dec key 9) as [->|Hne].
  - destruct (tab_cases suggestions st) as [(Hnil & idx & ->)|(c & idx & Hin & ->)];
      unfold cursor_in_buffer, matches_sound; cbn [buffer cursor last_matches last_buffer].
    + split; [exact Hc|]. rewrite Hnil. intros s [].
    + split; [lia|]. intros s Hs.
      destruct (String.eqb (text_of (buffer st)) (last_buffer st)).
      * apply Hm, Hs.
      * apply filter_In in Hs. exact Hs.
  - unfold prompt_key. rewrite (proj2 (Z.eqb_neq key 9)) by exact Hne.
    destruct (_ || _ || _); [exact I|].
    destruct (key =? 27); [exact I|].
    destruct (_ || _ || _).
    { destruct (0 <? cursor st) eqn:Epos; [|now split].
      apply Z.ltb_lt in Epos.
      destruct (list_pop_at_in_range (cursor st - 1) (buffer st)) as (b & -> & Hlen);
        [lia|].
      split; [|exact Hm]. unfold cursor_in_buffer. cbn [buffer cursor]. lia. }
    destruct (key =? KEY_LEFT).
    { destruct (0 <? cursor st) eqn:Epos; [|now split].
      apply Z.ltb_lt in Epos.
      split; [|exact Hm]. unfold cursor_in_buffer. cbn [buffer cursor]. lia. }
    destruct (key =? KEY_RIGHT).
    { destruct (cursor st <? _) eqn:Elt; [|now split].
      apply Z.ltb_lt in Elt.
      split; [|exact Hm]. unfold cursor_in_buffer. cbn [buffer cursor]. lia. }
    destruct (_ && _); [|now split].
    split; [|exact Hm]. unfold cursor_in_buffer. cbn [buffer cursor].
    rewrite length_list_insert_at. lia.
Qed.

Lemma prompt_run_inv suggestions keys : forall st,
  cursor_in_buffer st -> matches_sound suggestions st ->
  match prompt_run suggestions st keys with
  | Some (Next st') => cursor_in_buffer st' /\ matches_sound suggestions st'
  | Some Crash => False
  | _ => True
  end.
Proof.
  induction keys as [|key rest IH]; intros st Hc Hm; [exact I|].
  cbn [prompt_run].
  pose proof (prompt_key_inv suggestions st key Hc Hm) as Hstep.
  destruct (prompt_key suggestions st key) as [st'| |]; [|exact I|exact Hstep].
  destruct rest as [|k rest']; [exact Hstep|].
  apply IH; apply Hstep.
Qed.

(** X20 ([_prompt_command]).  Whatever keys are pressed, the prompt never
    dies of an [IndexError]: [buffer.pop(cursor - 1)] and
    [last_matches[match_index % len(last_matches)]] are always in range,
    because the cursor stays within the buffer; and the matches remembered
    for Tab stay suggestions that start with the remembered text. *)
Theorem prompt_never_raises suggestions st keys :
  cursor_in_buffer st ->
  matches_sound suggestions st ->
  prompt_run suggestions st keys <> Some Crash
  /\ (forall st', prompt_run suggestions st keys = Some (Next st') ->
        cursor_in_buffer st' /\ matches_sound suggestions st').
Proof.
  intros Hc Hm. pose proof (prompt_run_inv suggestions keys st Hc Hm) as H.
  split.
  - intros E. now rewrite E in H.
  - intros st' E. now rewrite E in H.
Qed.

Lemma prompt_never_raises_witness :
  prompt_run (Some ["check"; "tools"]) initial [116; 9; KEY_BACKSPACE; KEY_LEFT]
  <> Some Crash.
Proof.
  apply (prompt_never_raises (Some ["check"; "tools"]) initial
           [116; 9; KEY_BACKSPACE; KEY_LEFT]).
  - unfold cursor_in_buffer. cbn. lia.
  - intros s [].
Defined.

(** X21 ([_prompt_command], Tab).  Tab never ends the prompt and only ever
    extends the text: the text after Tab starts with the text before it, and
    is either unchanged or one of the suggestions. *)
Theorem tab_only_extends_text suggestions st :
  matches_sound suggestions st ->
  exists st',
    prompt_key suggestions st 9 = Next st'
    /\ startswith (text_of (buffer st')) (text_of (buffer st)) = true
    /\ (buffer st' = buffer st
        \/ In (text_of (buffer st'))
             (match suggestions with Some l => l | None => [] end)).
Proof.
  intros Hm.
  destruct (tab_cases suggestions st) as [(Hnil & idx & E)|(c & idx & Hin & E)];
    rewrite E; eexists; (split; [reflexivity|]); cbn [buffer].
  - split; [apply prefix_refl | now left].
  - rewrite text_of_chars_of.
    destruct (String.eqb (text_of (buffer st)) (last_buffer st)) eqn:Eb.
    + apply String.eqb_eq in Eb. destruct (Hm c Hin) as [Hpool Hstart].
      rewrite Eb. split; [exact Hstart | now right].
    + apply filter_In in Hin. destruct Hin as [Hpool Hstart].
      split; [exact Hstart | now right].
Qed.

Lemma tab_only_extends_text_witness :
  exists st',
    prompt_key (Some ["check"; "tools"]) initial 9 = Next st'
    /\ startswith (text_of (buffer st')) "" = true.
Proof.
  destruct (tab_only_extends_text (Some ["check"; "tools"]) initial)
    as (st' & H1 & H2 & _); [intros s []|].
  exists st'. split; [exact H1 | exact H2].
Defined.

Lemma list_insert_at_end {A} (x : A) l :
  list_insert_at (Z.of_nat (length l)) x l = (l ++ [x])%list.
Proof.
  rewrite list_insert_at_in_range by lia.
  rewrite Nat2Z.id, firstn_all, drop_all. reflexivity.
Qed.

(** X22 ([_prompt_command]).  With the cursor at the end of the buffer,
    typing printable characters and pressing Enter returns the text of the
    buffer followed by the typed characters, stripped of surrounding white
    space. *)
Theorem typed_text_is_returned suggestions st (typed : list ascii) :
  cursor st = Z.of_nat (length (buffer st)) ->
  Forall (fun c => 32 <= ord c <= 126) typed ->
  prompt_run suggestions st (map ord typed ++ [10])%list
  = Some (Done (strip (text_of (buffer st ++ typed)%list))).
Proof.
  intros Hcur Hprint. revert st Hcur.
  induction Hprint as [|c cs Hc Hcs IH]; intros st Hcur.
  - cbn. now rewrite app_nil_r.
  - cbn [map app prompt_run].
    rewrite (printable_key_inserts suggestions st (ord c) Hc).
    destruct (map ord cs ++ [10])%list as [|k rest] eqn:Erest.
    { now destruct (map ord cs). }
    cbv beta iota. rewrite <- Erest in *.
    rewrite IH.
    + cbn [buffer]. rewrite Hcur, list_insert_at_end, chr_ord.
      now rewrite <- app_assoc.
    + cbn [buffer cursor]. rewrite length_list_insert_at. lia.
Qed.

Lemma typed_text_is_returned_witness :
  prompt_run None initial (map ord (chars_of " quit ") ++ [10])%list
  = Some (Done "quit").
Proof.
  rewrite (typed_text_is_returned None initial (chars_of " quit ")).
  - reflexivity.
  - reflexivity.
  - repeat constructor; vm_compute; discriminate.
Defined.

End PromptFacts.

(* ===================================================================== *)
(** * tools.py: names and aliases *)
(* ===================================================================== *)

Module ToolsFacts.
Import PyStr PyText Tools.

(** A character a normalised name can hold: allowed, and left alone by
    [str.lower]. *)
Definition settled (c : ascii) : bool :=
  tool_name_char c && Ascii.eqb (lower_char c) c.

Lemma lower_char_settles c :
  tool_name_char (lower_char c) = true -> settled (lower_char c) = true.
Proof.
  destruct c as [[] [] [] [] [] [] [] []]; vm_compute; intros H;
    first [exact H | reflexivity].
Qed.

Lemma settled_spec c :
  settled c = true ->
  tool_name_char c = true /\ is_space c = false /\ lower_char c = c.
Proof.
  destruct c as [[] [] [] [] [] [] [] []]; vm_compute; intros H;
    first [discriminate H | repeat split; reflexivity].
Qed.

Lemma all_chars_keep_chars p s : all_chars p (keep_chars p s) = true.
Proof.
  induction s as [|c t IH]; [reflexivity|]. cbn [keep_chars].
  destruct (p c) eqn:E; [|exact IH]. cbn [all_chars]. now rewrite E, IH.
Qed.

Lemma normalized_settled name :
  all_chars settled (_normalize_tool_name name) = true.
Proof.
  unfold _normalize_tool_name. generalize (strip name) as s.
  induction s as [|c t IH]; [reflexivity|]. cbn [lower keep_chars].
  destruct (tool_name_char (lower_char c)) eqn:E; [|exact IH].
  cbn [all_chars]. now rewrite (lower_char_settles c E), IH.
Qed.

Lemma lstrip_no_space s :
  all_chars (fun c => negb (is_space c)) s = true -> lstrip s = s.
Proof.
  destruct s as [|c t]; [reflexivity|]. cbn [all_chars lstrip].
  intros [Hc _]%andb_prop. now destruct (is_space c).
Qed.

Lemma rstrip_no_space s :
  all_chars (fun c => negb (is_space c)) s = true -> rstrip s = s.
Proof.
  unfold rstrip. induction s as [|c t IH]; [reflexivity|].
  cbn [all_chars rstrip_with]. intros [Hc Ht]%andb_prop.
  rewrite (IH Ht). destruct t; [|reflexivity]. now destruct (is_space c).
Qed.

Lemma lower_fixed s :
  all_chars (fun c => Ascii.eqb (lower_char c) c) s = true -> lower s = s.
Proof.
  induction s as [|c t IH]; [reflexivity|]. cbn [all_chars lower].
  intros [Hc Ht]%andb_prop. apply Ascii.eqb_eq in Hc. now rewrite Hc, IH.
Qed.

Lemma keep_chars_all p s : all_chars p s = true -> keep_chars p s = s.
Proof.
  induction s as [|c t IH]; [reflexivity|]. cbn [all_chars keep_chars].
  intros [Hc Ht]%andb_prop. now rewrite Hc, IH.
Qed.

Lemma normalize_settled s :
  all_chars settled s = true -> _normalize_tool_name s = s.
Proof.
  intros H. unfold _normalize_tool_name, strip.
  rewrite lstrip_no_space, rstrip_no_space, lower_fixed, keep_chars_all;
    try reflexivity;
    (revert H; apply PyStrFacts.all_chars_impl; intros c Hc;
     destruct (settled_spec c Hc) as (H1 & H2 & H3)).
  - exact H1.
  - rewrite H3. apply Ascii.eqb_refl.
  - now rewrite H2.
  - now rewrite H2.
Qed.

Lemma normalize_tool_name_settled_twice name :
  _normalize_tool_name (_normalize_tool_name name) = _normalize_tool_name name.
Proof. apply normalize_settled, normalized_settled. Qed.

(** X23 ([_normalize_tool_name]).  Normalising is idempotent: a normalised
    name holds only characters the filter lets through, none of them white
    space or upper case, so stripping, lowering and filtering it again
    change nothing. *)
Theorem normalize_tool_name_idempotent name :
  _normalize_tool_name (_normalize_tool_name name) = _normalize_tool_name name
  /\ all_chars tool_name_char (_normalize_tool_name name) = true
  /\ lower (_normalize_tool_name name) = _normalize_tool_name name
  /\ strip (_normalize_tool_name name) = _normalize_tool_name name.
Proof.
  pose proof (normalized_settled name) as H.
  split; [now apply normalize_settled|].
  split; [|split].
  - revert H. apply PyStrFacts.all_chars_impl. intros c Hc.
    now destruct (settled_spec c Hc).
  - apply lower_fixed. revert H. apply PyStrFacts.all_chars_impl.
    intros c Hc. destruct (settled_spec c Hc) as (_ & _ & ->).
    apply Ascii.eqb_refl.
  - unfold strip. rewrite lstrip_no_space, rstrip_no_space; try reflexivity;
      (revert H; apply PyStrFacts.all_chars_impl; intros c Hc;
       now destruct (settled_spec c Hc) as (_ & -> & _)).
Qed.

(** ** [sorted(set(l))] *)

Lemma sorted_set_In (l : list string) x : In x (sorted_set l) <-> In x l.
Proof.
  unfold sorted_set. rewrite <- !list_elem_of_In.
  rewrite merge_sort_Permutation, elem_of_elements, elem_of_list_to_set.
  reflexivity.
Qed.

Lemma sorted_set_NoDup (l : list string) : List.NoDup (sorted_set l).
Proof.
  unfold sorted_set. apply NoDup_ListNoDup.
  rewrite merge_sort_Permutation. apply NoDup_elements.
Qed.

Lemma sorted_set_sorted (l : list string) :
  StronglySorted String.le (sorted_set l).
Proof. unfold sorted_set. apply StronglySorted_merge_sort; apply _. Qed.

(** ** The dictionary built by [add] *)

Definition names_key (k : string) (e : string * Handler) : bool :=
  String.eqb (_normalize_tool_name (fst e)) k.

Lemma find_app {A} (f : A -> bool) l1 l2 :
  find f (l1 ++ l2)%list
  = match find f l1 with Some x => Some x | None => find f l2 end.
Proof.
  induction l1 as [|a l1 IH]; [reflexivity|]. cbn [app find].
  now destruct (f a).
Qed.

(** The last [add] of a key is the one that counts. *)
Lemma fold_add_lookup l : forall m k,
  fold_left add l m !! k
  = match find (names_key k) (rev l) with
    | Some e => Some (snd e)
    | None => m !! k
    end.
Proof.
  induction l as [|a l IH]; intros m k; [reflexivity|].
  cbn [fold_left rev]. rewrite IH, find_app.
  destruct (find (names_key k) (rev l)); [reflexivity|].
  cbn [find]. unfold names_key at 1, add.
  destruct (String.eqb_spec (_normalize_tool_name (fst a)) k) as [->|Hne].
  - apply lookup_insert_eq.
  - now apply lookup_insert_ne.
Qed.

Lemma added_name_found l m e :
  In e l -> is_Some (fold_left add l m !! _normalize_tool_name (fst e)).
Proof.
  intros Hin. rewrite fold_add_lookup.
  destruct (find _ (rev l)) as [e'|] eqn:E; [eauto|].
  assert (names_key (_normalize_tool_name (fst e)) e = false) as Hno
    by (apply (find_none _ _ E e); now apply in_rev in Hin).
  unfold names_key in Hno. now rewrite String.eqb_refl in Hno.
Qed.

Lemma fixed_names_have_entries :
  forallb (fun name =>
             existsb (names_key (_normalize_tool_name name)) fixed_entries)
          fixed_names = true.
Proof. vm_compute. reflexivity. Qed.

(** Every key that [_tool_alias_keys] lists is the key of a call of [add]
    in [_tool_aliases]. *)
Lemma keys_are_alias_names extra_tools post_tools k :
  In k (_tool_alias_keys extra_tools post_tools) ->
  exists e, In e (alias_entries extra_tools post_tools)
            /\ k = _normalize_tool_name (fst e).
Proof.
  unfold _tool_alias_keys, alias_entries.
  intros [H|[H|H]%in_app_or]%in_app_or.
  - apply in_map_iff in H as (p & <- & Hp).
    exists (simple_entry p). split; [|reflexivity].
    apply in_or_app. left. now apply in_map.
  - apply in_flat_map in H as (p & Hp & Hk).
    assert (forall e, In e (post_entries p) ->
              In e (map simple_entry (base_tools ++ extra_tools ++ job_tools)
                    ++ flat_map post_entries post_tools ++ fixed_entries)%list)
      as Hgo.
    { intros e He. apply in_or_app. right. apply in_or_app. left.
      apply in_flat_map. eauto. }
    destruct Hk as [<-|[<-|[<-|[]]]].
    + exists (fst p, RunSimple (fst p) (snd p)).
      split; [apply Hgo; cbn; auto | reflexivity].
    + exists ("post." ++ fst p, RunSimple (fst p) (snd p)).
      split; [apply Hgo; cbn; auto | reflexivity].
    + exists ("post:" ++ fst p, RunSimple (fst p) (snd p)).
      split; [apply Hgo; cbn; auto | reflexivity].
  - apply in_map_iff in H as (name & <- & Hname).
    pose proof fixed_names_have_entries as Hall.
    rewrite forallb_forall in Hall. specialize (Hall name Hname).
    apply existsb_exists in Hall as (e & He & Hkey).
    unfold names_key in Hkey. apply String.eqb_eq in Hkey.
    exists e. split; [|now symmetry].
    apply in_or_app. right. apply in_or_app. now right.
Qed.

(** X24 ([list_tool_commands], [run_tool_by_name], [_tool_aliases],
    [_tool_alias_keys]).  Every name that [list_tool_commands] offers is
    accepted by [run_tool_by_name]: the two hand-kept lists agree in that
    direction, whatever presets the case defines. *)
Theorem listed_tools_run extra_tools post_tools name :
  In name (list_tool_commands extra_tools post_tools) ->
  is_Some (run_tool_by_name extra_tools post_tools name).
Proof.
  unfold list_tool_commands. rewrite sorted_set_In. intros Hin.
  apply keys_are_alias_names in Hin as (e & He & ->).
  unfold run_tool_by_name, _tool_aliases.
  rewrite normalize_tool_name_settled_twice.
  now apply added_name_found.
Qed.

Lemma listed_tools_run_witness :
  In "post.yplus" (list_tool_commands [] [("yPlus", ["postProcess"; "-func"; "yPlus"])])
  /\ is_Some (run_tool_by_name [] [("yPlus", ["postProcess"; "-func"; "yPlus"])]
                "post.yplus").
Proof.
  assert (In "post.yplus"
            (list_tool_commands [] [("yPlus", ["postProcess"; "-func"; "yPlus"])]))
    as Hin.
  { apply sorted_set_In. vm_compute. tauto. }
  split; [exact Hin|].
  exact (listed_tools_run [] [("yPlus", ["postProcess"; "-func"; "yPlus"])]
           "post.yplus" Hin).
Defined.

(** The keys of the built-in aliases are distinct: looking one up among
    them finds its own entry. *)
Lemma builtin_found entry :
  In entry fixed_entries ->
  find (names_key (_normalize_tool_name (fst entry))) (rev fixed_entries)
  = Some entry.
Proof.
  unfold fixed_entries at 1. cbn [In]. intros H.
  repeat (destruct H as [<-|H]; [vm_compute; reflexivity|]).
  destruct H.
Qed.

(** X25 ([_tool_aliases]).  The built-in aliases are added last, so no
    preset of the case can take their place: each built-in name runs its
    built-in handler, whatever the presets are called. *)
Theorem builtin_aliases_win extra_tools post_tools entry :
  In entry fixed_entries ->
  run_tool_by_name extra_tools post_tools (fst entry) = Some (snd entry).
Proof.
  intros Hin. unfold run_tool_by_name, _tool_aliases, alias_entries.
  rewrite fold_add_lookup, !rev_app_distr, !find_app.
  now rewrite (builtin_found entry Hin).
Qed.

Lemma builtin_aliases_win_witness :
  run_tool_by_name [("rerun", ["echo"; "again"])] [("last", ["ls"])] "rerun"
  = Some RerunLastTool.
Proof.
  apply (builtin_aliases_win [("rerun", ["echo"; "again"])] [("last", ["ls"])]
           ("rerun", RerunLastTool)).
  cbn. auto.
Defined.

End ToolsFacts.

(* ===================================================================== *)
(** * commands.py *)
(* ===================================================================== *)

Module CommandsFacts.
Import PyStr PyText Tools Commands.

Lemma append_not_empty s c : (s ++ String c EmptyString)%string <> EmptyString.
Proof. destruct s; rewrite ?PyStrFacts.append_cons; discriminate. Qed.

(** [s.split()] is empty only for a string of white space. *)
Lemma split_go_nil s : forall cur,
  split_go cur s = [] -> cur = EmptyString /\ all_chars is_space s = true.
Proof.
  induction s as [|c t IH]; intros cur; cbn [split_go all_chars].
  - destruct cur; [done|discriminate].
  - destruct (is_space c).
    + destruct cur; [|discriminate]. intros H. now destruct (IH _ H).
    + intros H. destruct (IH _ H) as [Hcur _].
      now apply append_not_empty in Hcur.
Qed.

Lemma rstrip_with_all p s :
  all_chars p (rstrip_with p s) = true -> rstrip_with p s = EmptyString.
Proof.
  induction s as [|c t IH]; [reflexivity|]. cbn [rstrip_with].
  destruct (rstrip_with p t) as [|c' t'] eqn:E.
  - destruct (p c) eqn:Ep; [reflexivity|]. cbn [all_chars]. now rewrite Ep.
  - cbn [all_chars]. intros [_ H]%andb_prop. cbn [all_chars] in IH.
    now specialize (IH H).
Qed.

Lemma split_strip_not_nil x :
  strip x <> EmptyString -> split (strip x) <> [].
Proof.
  intros Hne Hnil. apply Hne. unfold split in Hnil.
  apply split_go_nil in Hnil as [_ Hall]. unfold strip, rstrip in *.
  now apply rstrip_with_all.
Qed.

Lemma command_text_stripped command : exists x, command_text command = strip x.
Proof.
  unfold command_text. destruct (startswith _ _); eauto.
Qed.

Lemma command_text_words command :
  command_text command <> EmptyString -> split (command_text command) <> [].
Proof.
  destruct (command_text_stripped command) as [x ->]. apply split_strip_not_nil.
Qed.

(** Walks through the tests of [handle_command]. *)
Ltac command_cases :=
  repeat (cbv beta iota; cbn [negb];
          match goal with
          | |- context [if one_of ?a ?b then _ else _] =>
              let E := fresh "E" in destruct (one_of a b) eqn:E
          | |- context [match ?args with [] => _ | _ :: _ => _ end] =>
              is_var args; destruct args
          | |- context [negb ?b] => is_var b; destruct b
          | |- context [match ?o with Some _ => _ | None => _ end] =>
              is_var o; destruct o
          | |- context [run_tool_by_name ?a ?b ?c] =>
              destruct (run_tool_by_name a b c)
          | |- context [set_mode] => unfold set_mode
          | |- context [run_named] => unfold run_named
          end);
  cbv beta iota; cbn [negb].

Lemma handle_command_shape extra_tools post_tools env no_foam command :
  match handle_command extra_tools post_tools env no_foam command with
  | IndexError => False
  | Replied result no_foam' actions =>
      (result = None <-> command_text command = EmptyString)
      /\ (result = Some "quit" <->
            exists first args,
              split (command_text command) = first :: args
              /\ one_of (lower first) ["q"; "quit"; "exit"] = true)
      /\ (result = None \/ result = Some "quit" \/ result = Some "handled")
      /\ (result <> Some "handled" -> actions = [] /\ no_foam' = no_foam)
  end.
Proof.
  unfold handle_command.
  pose proof (command_text_words command) as Hwords.
  destruct (command_text command) as [|a r] eqn:Ec.
  - split; [done|]. split; [|split; [auto|done]].
    split; [discriminate|]. intros (first & args & H & _). discriminate H.
  - destruct (split (String a r)) as [|first args] eqn:Es.
    { now apply Hwords. }
    destruct (one_of (lower first) ["q"; "quit"; "exit"]) eqn:Equit.
    + split; [split; discriminate|]. split; [|split; [auto|done]].
      split; [eauto|done].
    + assert (forall nf (actions : list Action),
                (Some "handled" = None <-> String a r = EmptyString)
                /\ (Some "handled" = Some "quit" <->
                      exists first' args',
                        first :: args = first' :: args'
                        /\ one_of (lower first') ["q"; "quit"; "exit"] = true)
                /\ (Some "handled" = None \/ Some "handled" = Some "quit"
                    \/ Some "handled" = Some "handled")
                /\ (Some "handled" <> Some "handled"
                    -> actions = [] /\ nf = no_foam)) as Hhandled.
      { intros nf actions. split; [split; discriminate|].
        split; [|split; [auto|done]].
        split; [discriminate|]. intros (f & g & [= <- <-] & H). congruence. }
      command_cases; apply Hhandled.
Qed.

(** X26 ([handle_command]).  [handle_command] never fails on [parts[0]]
    and answers in one of three ways: [None] exactly for a blank command (a
    lone colon included), ["quit"] exactly when the first word is [q],
    [quit] or [exit] in any case, and ["handled"] for everything else; only
    ["handled"] commands call anything or touch the mode. *)
Theorem handle_command_answers extra_tools post_tools env no_foam command :
  exists result no_foam' actions,
    handle_command extra_tools post_tools env no_foam command
    = Replied result no_foam' actions
    /\ (result = None <-> command_text command = EmptyString)
    /\ (result = Some "quit" <->
          exists first args,
            split (command_text command) = first :: args
            /\ one_of (lower first) ["q"; "quit"; "exit"] = true)
    /\ (result = None \/ result = Some "quit" \/ result = Some "handled")
    /\ (result <> Some "handled" -> actions = [] /\ no_foam' = no_foam).
Proof.
  pose proof (handle_command_shape extra_tools post_tools env no_foam command)
    as H.
  destruct (handle_command _ _ _ _ _) as [result nf actions|]; [|destruct H].
  exists result, nf, actions. split; [reflexivity|exact H].
Qed.

(** X27 ([handle_command], the [nofoam]/[foam] command).  The mode is only
    ever left for foam mode after [ensure_environment()] has returned
    without raising; [OF_TUI_NO_FOAM] is removed only then, and set only
    when the state ends in no-foam mode. *)
Theorem foam_mode_needs_environment extra_tools post_tools env no_foam command
    result no_foam' actions :
  handle_command extra_tools post_tools env no_foam command
  = Replied result no_foam' actions ->
  (no_foam' = false -> no_foam = false \/ env = None)
  /\ (In PopEnvNoFoam actions -> no_foam' = false /\ env = None)
  /\ (In SetEnvNoFoam actions -> no_foam' = true).
Proof.
  unfold handle_command.
  destruct (command_text command) as [|a r].
  { intros [= <- <- <-]. cbn [In]. tauto. }
  destruct (split (String a r)) as [|first args]; [discriminate|].
  command_cases; intros [= <- <- <-]; cbn [In];
    (split; [|split]); intros Hx; try discriminate Hx;
    repeat (destruct Hx as [Hx|Hx]; try discriminate Hx);
    try contradiction; auto.
Qed.

Lemma foam_mode_needs_environment_witness :
  (true = false -> true = false \/ Some "no OpenFOAM" = None)
  /\ (In PopEnvNoFoam [ShowMessage "Cannot enable foam mode: no OpenFOAM"]
      -> true = false /\ Some "no OpenFOAM" = None)
  /\ (In SetEnvNoFoam [ShowMessage "Cannot enable foam mode: no OpenFOAM"]
      -> true = true).
Proof.
  refine (foam_mode_needs_environment [] [] (Some "no OpenFOAM") true
            ":foam off" (Some "handled") true
            [ShowMessage "Cannot enable foam mode: no OpenFOAM"] _).
  vm_compute. reflexivity.
Defined.

(** X28 ([command_suggestions]).  The suggestions are in ascending order
    without repetition, and are exactly the eight fixed commands, the tool
    names, and each tool name after [tool ] and after [run ]. *)
Theorem command_suggestions_sorted_distinct (tool_names : list string) :
  StronglySorted String.le (command_suggestions tool_names)
  /\ List.NoDup (command_suggestions tool_names)
  /\ forall s,
       In s (command_suggestions tool_names)
       <-> In s ["check"; "tools"; "diag"; "run"; "nofoam"; "no-foam"; "quit";
                 "help"]
           \/ In s tool_names
           \/ exists name, In name tool_names
                /\ (s = "tool " ++ name \/ s = "run " ++ name).
Proof.
  unfold command_suggestions.
  split; [apply ToolsFacts.sorted_set_sorted|].
  split; [apply ToolsFacts.sorted_set_NoDup|].
  intros s. rewrite ToolsFacts.sorted_set_In, !in_app_iff, !in_map_iff.
  split.
  - intros [H|[(n & <- & Hn)|[(n & <- & Hn)|H]]]; eauto 8.
  - intros [H|[H|(n & Hn & [->| ->])]]; eauto 8.
Qed.

End CommandsFacts.

(* ===================================================================== *)
(** * app.py: the counters of the check *)
(* ===================================================================== *)

Module AppMore.
Import App CheckScreen.

(** The callbacks leave [check_total] and [check_in_progress] alone, and
    never put [check_results] back to [None]. *)
Lemma run_calls_fields cs : forall st0,
  Forall (fun s => check_total s = check_total st0
                   /\ check_in_progress s = check_in_progress st0
                   /\ (check_results st0 <> None -> check_results s <> None))
         (run_calls cs st0).
Proof.
  induction cs as [|c cs IH]; intros st0; [constructor|].
  cbn [run_calls]. constructor.
  - destruct c; cbn; repeat split; try tauto. discriminate.
  - eapply Forall_impl; [apply IH|].
    intros s (Ht & Hp & Hr). destruct c; cbn in *; repeat split;
      try assumption; intros; apply Hr; try assumption; discriminate.
Qed.






Lemma run_calls_last_results cs : forall st0,
  check_results st0 <> None ->
  check_results (List.last (run_calls cs st0) st0) <> None.
Proof.
  induction cs as [|c cs IH]; intros st0 H; [exact H|].
  cbn [run_calls]. rewrite AppFacts.last_cons. apply IH.
  destruct c; [exact H|discriminate].
Qed.



(** X30 ([_check_syntax_screen], [_start_check_thread]).  Once a worker has
    begun, the test of [_check_syntax_screen] that starts a check is false in
    every state the worker goes through, the last included: opening the
    screen again never starts a second check, not even after a run that
    [verify_case] aborted. *)
Theorem check_is_not_restarted sections run st s :
  In s (worker sections run st) -> starts_check s = false.
Proof.
  unfold worker. set (st0 := begin (total_files sections) st).
  pose proof (run_calls_fields (calls run) st0) as Hfields.
  rewrite Forall_forall in Hfields.
  intros [<-|[Hs|[<-|[]]]%in_app_or]; [reflexivity| |reflexivity].
  apply list_elem_of_In in Hs.
  destruct (Hfields s Hs) as (_ & _ & Hres).
  unfold starts_check. destruct (check_results s); [reflexivity|].
  exfalso. now apply Hres.
Qed.

Lemma check_is_not_restarted_witness :
  starts_check
    (final Samples.sample_sections
       (verify_case Samples.failing_check
          (case_files Samples.sample_sections) ∅) Samples.idle) = false.
Proof.
  apply (check_is_not_restarted Samples.sample_sections
           (verify_case Samples.failing_check
              (case_files Samples.sample_sections) ∅) Samples.idle).
  unfold final. vm_compute. tauto.
Defined.

End AppMore.
